(** * StarNet: the data cell of [CNN/DataDriven_StarNet_CNN.ipynb]

    A shallow embedding of the notebook cell "Load non-normalized spectra":
    label normalisation with the pre-computed mean and standard deviation,
    NaN replacement, removal of the zero-vector spectra, column stacking,
    the in-place shuffle and the train / cross-validation slices.

    numpy arrays are lists (1-D) and lists of rows (2-D); array elements
    are IEEE-754 binary floating-point numbers, [spec_float] of the
    Standard Library, in a format [prec], [emax] that the development is
    parametric in (binary64 is [prec = 53], [emax = 1024]).  Python
    exceptions are the [Raise] results of a small error monad; numpy's
    global [RandomState] is threaded explicitly, and [np.std] and the
    generator's bounded draw are parameters of the cell.

    The definitions come first, then the facts and the claims C1 to C10,
    then their evaluation on a small binary64 instance. *)

From Stdlib Require Import ZArith QArith Qabs Qpower Lia Lqa.
From Stdlib Require Import Floats.SpecFloat.
From stdpp Require Import base decidable option numbers list.

Local Open Scope nat_scope.

(** ** Python exceptions as an error monad *)

Inductive exn : Set :=
  | IndexError
  | ValueError
  | OverflowError.

Inductive result (A : Type) : Type :=
  | Ok (a : A)
  | Raise (e : exn).
Arguments Ok {A} a.
Arguments Raise {A} e.

#[global] Instance result_ret : MRet result := λ A a, Ok a.
#[global] Instance result_bind : MBind result := λ A B f r,
  match r with
  | Ok a => f a
  | Raise e => Raise e
  end.
#[global] Instance result_fmap : FMap result := λ A B f r,
  match r with
  | Ok a => Ok (f a)
  | Raise e => Raise e
  end.

(** ** Floating-point array elements *)

Abbreviation float := spec_float.

Abbreviation vector := (list float).
Abbreviation matrix := (list (list float)).

(** The Python literal [0.] *)
Definition zero : float := S754_zero false.

(** [np.isnan] on one element *)
Definition isnan (x : float) : bool :=
  match x with
  | S754_nan => true
  | _ => false
  end.

(** [x != y] on floats: true whenever the operands are unordered *)
Definition ne (x y : float) : bool := negb (SFeqb x y).

Definition is_finite (x : float) : bool :=
  match x with
  | S754_zero _ | S754_finite _ _ _ => true
  | _ => false
  end.

(** ** Indexing *)

(** [a[i]] for one non-negative index *)
Definition getitem {A} (a : list A) (i : nat) : result A :=
  match a !! i with
  | Some x => Ok x
  | None => Raise IndexError
  end.

(** [a[indices]] for an index array: the rows of [a] at [indices], in the
    order of [indices]; an index past the end raises *)
Definition take_rows {A} (a : list A) (indices : list nat) : result (list A) :=
  mapM (getitem a) indices.

(** [a.shape[1]] of a 2-D array.  A list of rows with no row has no
    recorded column count; 0 stands for it. *)
Definition shape1 {A} (a : list (list A)) : nat :=
  match a with
  | r :: _ => length r
  | [] => 0
  end.

(** [np.where(mask)] on a 2-D boolean array: the row indices and the column
    indices of the true entries, in row-major order *)
Fixpoint where_row (i j : nat) (row : list bool) : list (nat * nat) :=
  match row with
  | [] => []
  | b :: row' => (if b then [(i, j)] else []) ++ where_row i (S j) row'
  end.

Fixpoint where_from (i : nat) (mask : list (list bool)) : list (nat * nat) :=
  match mask with
  | [] => []
  | row :: mask' => where_row i 0 row ++ where_from (S i) mask'
  end.

Definition np_where (mask : list (list bool)) : list nat * list nat :=
  let hits := where_from 0 mask in (hits.*1, hits.*2).

(** [a[i, j] = v] *)
Definition setitem2 {A} (a : list (list A)) (ij : nat * nat) (v : A) : list (list A) :=
  match a !! ij.1 with
  | Some row => <[ij.1 := <[ij.2 := v]> row]> a
  | None => a
  end.

(** [a[(rows, cols)] = v]: the assignment at every listed position *)
Definition setitems {A} (a : list (list A)) (idx : list nat * list nat) (v : A)
  : list (list A) :=
  foldl (λ acc ij, setitem2 acc ij v) a (zip idx.1 idx.2).

(** [spectra[np.where(np.isnan(spectra))] = 0.] *)
Definition nan_to_zero (spectra : matrix) : matrix :=
  let indices_nan := np_where (map (map isnan) spectra) in
  setitems spectra indices_nan zero.

Definition get2 {A} (a : list (list A)) (i j : nat) : option A :=
  a !! i ≫= (.!! j).

(** What [nan_to_zero] does to one element *)
Definition fix_nan (x : float) : float := if isnan x then zero else x.

(** ** Row selection by a boolean mask *)

(** [a.reshape(a.shape[0], 1)]: a 1-D array as one column *)
Definition reshape_col {A} (v : list A) : list (list A) := map (λ x, [x]) v.

(** [a.reshape(a.shape[0], a.shape[1], 1)]: every scalar wrapped as a
    length-1 channel vector *)
Definition reshape_channels {A} (a : list (list A)) : list (list (list A)) :=
  map (map (λ x, [x])) a.

(** The indices of the true entries of a mask, counted from [i] *)
Fixpoint true_indices (i : nat) (keep : list bool) : list nat :=
  match keep with
  | [] => []
  | b :: keep' => (if b then [i] else []) ++ true_indices (S i) keep'
  end.

(** The entries of [a] at the true positions of a mask *)
Fixpoint select {A} (keep : list bool) (a : list A) : list A :=
  match keep, a with
  | b :: keep', x :: a' => (if b then [x] else []) ++ select keep' a'
  | _, _ => []
  end.

(** ** Broadcasting *)

(** [a op v] for a row [a] of a 2-D array and a 1-D array [v], by numpy's
    broadcasting of the last axis *)
Definition broadcast_row {T} (op : T → T → T) (row v : list T) : result (list T) :=
  if decide (length row = length v) then Ok (zip_with op row v)
  else match v, row with
       | [b], _ => Ok (map (λ a, op a b) row)
       | _, [a] => Ok (map (op a) v)
       | _, _ => Raise ValueError
       end.

(** [a op v] for a 2-D array [a].  numpy compares the column count of [a]
    with the length of [v] even when [a] has no row, and raises ValueError
    on a mismatch; a list of no rows records no column count, so here the
    array without rows stands for the one of shape (0, D) whose D fits [v],
    and the result is the array without rows. *)
Definition broadcast {T} (op : T → T → T) (a : list (list T)) (v : list T)
  : result (list (list T)) :=
  mapM (λ row, broadcast_row op row v) a.

(** [(lb-mean_labels)/std_labels] over any element type with a
    subtraction and a division *)
Definition normalize_with {T} (sub div : T → T → T)
    (mean_labels std_labels : list T) (lb : list (list T)) : result (list (list T)) :=
  d ← broadcast sub lb mean_labels;
  broadcast div d std_labels.

(** ** Python numbers: [int(0.9*len(labels))]

    Python floats are binary64 whatever the dtype of the arrays. *)

Definition py_prec : Z := 53.
Definition py_emax : Z := 1024.

(** The literal [0.9]: the binary64 number nearest to 9/10 *)
Definition lit_0_9 : float := S754_finite false 8106479329266893 (-53).

(** The conversion of an [int] operand of [*] to float (round to nearest
    even).  Python raises OverflowError for an int beyond the float range;
    here such an int becomes an infinity, which [int_] refuses with the
    same exception. *)
Definition float_of_int (n : Z) : float :=
  binary_normalize py_prec py_emax n 0 false.

(** [int(x)]: truncation toward zero *)
Definition int_ (x : float) : result Z :=
  match x with
  | S754_zero _ => Ok 0%Z
  | S754_finite s m e =>
      Ok (cond_Zopp s (match e with
                       | Zneg p => Z.shiftr (Zpos m) (Zpos p)
                       | _ => Z.shiftl (Zpos m) e
                       end))
  | S754_infinity _ => Raise OverflowError
  | S754_nan => Raise ValueError
  end.

(** [num_train = int(0.9*len(labels))] *)
Definition num_train_of (len_labels : nat) : result Z :=
  int_ (SFmul py_prec py_emax lit_0_9 (float_of_int (Z.of_nat len_labels))).

(** Zero or a finite number of mantissa at most [M] and exponent at most [E] *)
Definition bounded_float (M E : Z) (x : float) : Prop :=
  match x with
  | S754_zero _ => True
  | S754_finite _ m e => (Zpos m ≤ M)%Z ∧ (e ≤ E)%Z
  | _ => False
  end.

(** ** Stacking *)

(** [np.column_stack((a, b, c))] of three 1-D arrays *)
Definition column_stack3 {A} (a b c : list A) : result (list (list A)) :=
  if decide (length a = length b ∧ length b = length c)
  then Ok (zip_with (λ x yz, x :: yz) a (zip_with (λ y z, [y; z]) b c))
  else Raise ValueError.

(** [np.column_stack((a, b))] of two 2-D arrays *)
Definition column_stack {A} (a b : list (list A)) : result (list (list A)) :=
  if decide (length a = length b)
  then Ok (zip_with app a b)
  else Raise ValueError.

(** ** The stored file and the outputs of the cell *)

(** The columns read from [starnet_training_data.h5] *)
Record h5file : Type := {
  spectrum : matrix;
  TEFF : vector;
  LOGG : vector;
  FE_H : vector
}.

Record datasets : Type := {
  train_spectra : list (list (list float));
  train_labels : matrix;
  cv_spectra : list (list (list float));
  cv_labels : matrix
}.

(** The shapes the cell expects: a 2 x 3 array of statistics, row-aligned
    columns, spectra of one length, and a row count that fits numpy's
    index type *)
Record wf_input (mean_and_std : matrix) (F : h5file) : Prop := {
  wf_stats : ∃ mean std, mean_and_std = [mean; std] ∧ length mean = 3 ∧ length std = 3;
  wf_teff : length (TEFF F) = length (spectrum F);
  wf_logg : length (LOGG F) = length (spectrum F);
  wf_fe_h : length (FE_H F) = length (spectrum F);
  wf_rect : Forall (λ row, length row = shape1 (spectrum F)) (spectrum F);
  wf_size : (Z.of_nat (length (spectrum F)) < 2 ^ 63)%Z
}.

(** ** The cell *)

Section Cell.

(** The floating-point format of the arrays *)
Variables prec emax : Z.

(** [np.std] of one row ([np.std(spectra, axis=1)] applies it to every
    row); numpy's reduction is taken as given *)
Variable np_std : vector → float.

(** numpy's global [RandomState] and its bounded draw
    [rk_interval(max, state)], which returns an integer of [0..max] *)
Variable RandomState : Type.
Variable rk_interval : nat → RandomState → nat * RandomState.

(** *** Label normalisation *)

(** [mean_labels = mean_and_std[0]], [std_labels = mean_and_std[1]] and
    [num_labels = mean_and_std.shape[1]] of the loaded array *)
Definition load_stats (mean_and_std : matrix) : result (vector * vector * nat) :=
  mean_labels ← getitem mean_and_std 0;
  std_labels ← getitem mean_and_std 1;
  let num_labels := shape1 mean_and_std in
  mret (mean_labels, std_labels, num_labels).

(** [def normalize(lb): return (lb-mean_labels)/std_labels] *)
Definition normalize (mean_labels std_labels : vector) (lb : matrix) : result matrix :=
  normalize_with (SFsub prec emax) (SFdiv prec emax) mean_labels std_labels lb.

(** *** Cleaning: NaN replacement and removal of the zero-vector spectra *)

Definition clean (spectra labels : matrix) : result (matrix * matrix) :=
  (* set NaN values to zero *)
  let spectra := nan_to_zero spectra in
  (* some visit spectra are just zero-vectors... remove these. *)
  let spec_std := map np_std spectra in
  let spec_std := reshape_col spec_std in
  let indices := (np_where (map (map (λ s, ne s zero)) spec_std)).1 in
  spectra ← take_rows spectra indices;
  labels ← take_rows labels indices;
  mret (spectra, labels).

(** The rows [clean] keeps, as a mask over the NaN-free spectra *)
Definition keep_mask (spectra : matrix) : list bool :=
  map (λ row, ne (np_std row) zero) (nan_to_zero spectra).

(** *** [np.random.shuffle] on the rows of an array *)

(** [buf = x[j]; x[j] = x[i]; x[i] = buf].  The shuffle calls it with a
    draw [j] of [0..i] and [i] below the length, so both rows exist; an
    array without one of the rows is left as it is. *)
Definition swap {A} (x : list A) (i j : nat) : list A :=
  match x !! i, x !! j with
  | Some xi, Some xj => <[i := xj]> (<[j := xi]> x)
  | _, _ => x
  end.

(** [for i in reversed(range(1, n)): j = rk_interval(i); swap] *)
Fixpoint shuffle_loop {A} (i : nat) (x : list A) (st : RandomState)
  : list A * RandomState :=
  match i with
  | 0 => (x, st)
  | S i' =>
      let '(j, st) := rk_interval i st in
      shuffle_loop i' (if decide (i = j) then x else swap x i j) st
  end.

Definition shuffle {A} (x : list A) (st : RandomState) : list A * RandomState :=
  shuffle_loop (length x - 1) x st.

(** The indices [shuffle_loop] draws from the generator, in order *)
Fixpoint draws (i : nat) (st : RandomState) : list nat :=
  match i with
  | 0 => []
  | S i' => let '(j, st) := rk_interval i st in j :: draws i' st
  end.

(** The state the generator is left in after these draws *)
Fixpoint advance (i : nat) (st : RandomState) : RandomState :=
  match i with
  | 0 => st
  | S i' => advance i' (rk_interval i st).2
  end.

(** *** The steps of the cell *)

(** From the files to the cleaned reference set, with [num_train] and
    [num_fluxes] as the cell computes them on the way *)
Definition reference_set (mean_and_std : matrix) (F : h5file)
  : result (matrix * matrix * nat * nat) :=
  '(mean_labels, std_labels, _) ← load_stats mean_and_std;
  let spectra := spectrum F in
  labels ← column_stack3 (TEFF F) (LOGG F) (FE_H F);
  labels ← normalize mean_labels std_labels labels;
  let num_fluxes := shape1 spectra in
  num_train ← num_train_of (length labels);
  '(spectra, labels) ← clean spectra labels;
  mret (spectra, labels, Z.to_nat num_train, num_fluxes).

(** [reference_data = np.column_stack((spectra,labels))] *)
Definition reference (mean_and_std : matrix) (F : h5file)
  : result (matrix * nat * nat) :=
  '(spectra, labels, num_train, num_fluxes) ← reference_set mean_and_std F;
  reference_data ← column_stack spectra labels;
  mret (reference_data, num_train, num_fluxes).

(** The slices of the shuffled [reference_data] *)
Definition slices (reference_data : matrix) (num_train num_fluxes : nat) : datasets :=
  {| train_spectra :=
       reshape_channels (map (take num_fluxes) (take num_train reference_data));
     train_labels := map (drop num_fluxes) (take num_train reference_data);
     cv_spectra :=
       reshape_channels (map (take num_fluxes) (drop num_train reference_data));
     cv_labels := map (drop num_fluxes) (drop num_train reference_data) |}.

(** The whole cell, from the state of the global generator to the four
    arrays and the state it leaves *)
Definition cell (mean_and_std : matrix) (F : h5file) (st : RandomState)
  : result datasets * RandomState :=
  match reference mean_and_std F with
  | Ok (reference_data, num_train, num_fluxes) =>
      let '(reference_data, st) := shuffle reference_data st in
      (Ok (slices reference_data num_train num_fluxes), st)
  | Raise e => (Raise e, st)
  end.

(** The number of draws the cell takes from the generator: one less than
    the number of rows it shuffles *)
Definition num_draws (mean_and_std : matrix) (F : h5file) : nat :=
  match reference mean_and_std F with
  | Ok (reference_data, _, _) => length reference_data - 1
  | Raise _ => 0
  end.

End Cell.

Arguments shuffle_loop {RandomState} rk_interval {A} i x st.
Arguments shuffle {RandomState} rk_interval {A} x st.
Arguments draws {RandomState} rk_interval i st.
Arguments advance {RandomState} rk_interval i st.
Arguments cell prec emax np_std {RandomState} rk_interval mean_and_std F st.

(** ** The inverse normalisation *)

(** Modelled from the spec: [LabelNormalizer.invert], which no file under
    src/ defines.  "invert(normalized, stats) -> original-scale labels:
    exact algebraic inverse, x*std + mean", element-wise per dimension. *)
Definition invert_with {T} (mul add : T → T → T)
    (mean_labels std_labels : list T) (normalized : list (list T)) : list (list T) :=
  map (λ row, zip_with add (zip_with mul row std_labels) mean_labels) normalized.

(** The rational number a finite float stands for *)
Definition float_value (x : float) : option Q :=
  match x with
  | S754_zero _ => Some 0%Q
  | S754_finite s m e => Some (inject_Z (cond_Zopp s (Zpos m)) * Qpower 2 e)%Q
  | _ => None
  end.

(** [y] reproduces [x] within the relative tolerance [tol] *)
Definition within_tolerance (tol : Q) (x y : float) : bool :=
  match float_value x, float_value y with
  | Some a, Some b => Qle_bool (Qabs (b - a)) (tol * Qabs a)
  | _, _ => false
  end.

(** ** The values of binary64 numbers and the round trip of a label *)

(** 2^-52, the relative error of one rounded operation of binary64 *)
Definition u64 : Q := 1 # 4503599627370496.

(** The rational a finite float stands for; 0 for an infinity and NaN *)
Definition B2Q (x : float) : Q := default 0%Q (float_value x).

Definition sgn (s : bool) : Q := if s then (-1)%Q else 1%Q.

(** Zero or a finite number whose exponent is one of binary64 *)
Definition in_format (x : float) : Prop :=
  match x with
  | S754_zero _ => True
  | S754_finite _ _ e => (-1074 ≤ e)%Z
  | _ => False
  end.

(** A finite number above the lowest exponent of binary64: not the result
    of an underflow *)
Definition normal (x : float) : Prop :=
  match x with
  | S754_finite _ _ e => (-1074 < e)%Z
  | _ => False
  end.

(** A number of binary64: finite, with a mantissa and an exponent of the
    format *)
Definition binary64 (x : float) : Prop :=
  is_finite x = true ∧ valid_binary 53 1024 x = true.

(** The round trip of one label through [(x - mean) / std] and
    [x * std + mean] neither overflows nor underflows: the difference and
    the sum are finite, and the quotient and the product are finite numbers
    above the lowest exponent, unless the difference is zero *)
Definition no_overflow_underflow (x mean std : float) : Prop :=
  let a := SFsub 53 1024 x mean in
  let b := SFdiv 53 1024 a std in
  let c := SFmul 53 1024 b std in
  let d := SFadd 53 1024 c mean in
  is_finite a = true
  ∧ (SFeqb a zero = false → normal b ∧ normal c)
  ∧ is_finite d = true.

(** [x'] reproduces [x] up to the rounding of the four operations: it is
    finite and within 2^-52 of [|x| + 5 |x - mean|] *)
Definition close (x' x mean : float) : Prop :=
  is_finite x' = true
  ∧ (Qabs (B2Q x' - B2Q x) <= u64 * (Qabs (B2Q x) + 5 * Qabs (B2Q x - B2Q mean)))%Q.

(** ** Error propagation *)

Inductive propagation_error : Set :=
  | InsufficientSamplesError
  | PropagationError.

Record estimate : Type := {
  point : vector;
  uncertainty : vector
}.

Section ErrorPropagator.

Variables prec emax : Z.

(** The explicitly passed generator, the opaque model with its prediction
    ([None] when the model throws), the perturbation policy, and the
    summary statistics of one label dimension over the ensemble *)
Variable Generator : Type.
Variable Model : Type.
Variable predict : Model → Generator → vector → option vector * Generator.
Variable perturb : Generator → vector → vector * Generator.
Variables ensemble_mean ensemble_std : vector → float.

(** Modelled from the spec: steps 1 and 2 of ErrorPropagator
    (6_Error_Propogation.ipynb is not under src/).  "generate an ensemble
    of K perturbed copies", "invoke the ... prediction operation once per
    ensemble member"; a member that throws fails the whole ensemble. *)
Fixpoint ensemble (model : Model) (K : nat) (x : vector) (g : Generator)
  : option (list vector) * Generator :=
  match K with
  | 0 => (Some [], g)
  | S K' =>
      let '(x', g) := perturb g x in
      let '(y, g) := predict model g x' in
      match y with
      | None => (None, g)
      | Some y =>
          let '(ys, g) := ensemble model K' x g in
          (cons y <$> ys, g)
      end
  end.

(** The values of label dimension [j] over the ensemble *)
Definition dimension (j : nat) (ys : list vector) : vector := omap (.!! j) ys.

(** Modelled from the spec: ErrorPropagator (6_Error_Propogation.ipynb is
    not under src/).  "K must be >= 2 (a single sample ... must raise
    InsufficientSamplesError)"; "if the model interface throws during any
    member's forward pass, the whole batch estimate is failed
    (PropagationError)"; otherwise the normalisation is inverted on each of
    the K outputs and the ensemble mean and standard deviation are reported
    per label dimension. *)
Definition propagate (model : Model) (K : nat) (mean_labels std_labels : vector)
    (x : vector) (g : Generator) : (propagation_error + estimate) * Generator :=
  if decide (K < 2) then (inl InsufficientSamplesError, g)
  else
    match ensemble model K x g with
    | (None, g) => (inl PropagationError, g)
    | (Some ys, g) =>
        let physical :=
          invert_with (SFmul prec emax) (SFadd prec emax) mean_labels std_labels ys in
        let dims := seq 0 (length mean_labels) in
        (inr {| point := map (λ j, ensemble_mean (dimension j physical)) dims;
                uncertainty := map (λ j, ensemble_std (dimension j physical)) dims |},
         g)
    end.

End ErrorPropagator.

(** ** A binary64 instance, for evaluation *)

(** [m * 2^e] rounded to binary64 *)
Definition b64 (m e : Z) : float := binary_normalize 53 1024 m e false.

(** [np.std] of a binary64 row, [sqrt(mean(abs(x - x.mean())**2))], with
    the sums taken from left to right, which is numpy's order for a row of
    fewer than eight entries (longer rows it adds pairwise); the instance
    is evaluated on rows of two flux values *)
Definition sum64 (v : vector) : float := foldl (SFadd 53 1024) zero v.

Definition mean64 (v : vector) : float :=
  SFdiv 53 1024 (sum64 v) (b64 (Z.of_nat (length v)) 0).

Definition std64 (v : vector) : float :=
  let m := mean64 v in
  SFsqrt 53 1024
    (mean64 (map (λ x, let d := SFsub 53 1024 x m in SFmul 53 1024 d d) v)).

(** A small congruential generator standing for the global [RandomState] *)
Definition lcg (max : nat) (st : nat) : nat * nat :=
  (st `mod` S max, (st * 5 + 3) `mod` 64).

(** Statistics of shape 2 x 3: means (4000, 2, 0), standard deviations
    (500, 1, 0.5) *)
Definition ex_stats : matrix :=
  [[b64 4000 0; b64 2 0; b64 0 0]; [b64 500 0; b64 1 0; b64 1 (-1)]].

(** Five spectra of two flux values; the second and the fourth are
    constant once NaN is replaced *)
Definition ex_file : h5file :=
  {| spectrum := [[b64 1 0; b64 2 0]; [S754_nan; b64 0 0]; [b64 3 0; S754_nan];
                  [b64 5 0; b64 5 0]; [b64 2 0; b64 7 0]];
     TEFF := [b64 4500 0; b64 5000 0; b64 3500 0; b64 4000 0; b64 6000 0];
     LOGG := [b64 1 0; b64 2 0; b64 3 0; b64 4 0; b64 5 0];
     FE_H := [b64 0 0; b64 1 (-1); b64 1 0; b64 1 (-2); b64 0 0] |}.

(** The label vectors of [ex_file], one row for each spectrum *)
Definition ex_labels : matrix :=
  [[b64 4500 0; b64 1 0; b64 0 0]; [b64 5000 0; b64 2 0; b64 1 (-1)];
   [b64 3500 0; b64 3 0; b64 1 0]; [b64 4000 0; b64 4 0; b64 1 (-2)];
   [b64 6000 0; b64 5 0; b64 0 0]].

(** Four spectra none of which is constant *)
Definition ex_file_varied : h5file :=
  {| spectrum := [[b64 1 0; b64 2 0]; [b64 4 0; b64 0 0]; [b64 3 0; b64 6 0];
                  [b64 2 0; b64 7 0]];
     TEFF := [b64 4500 0; b64 5000 0; b64 3500 0; b64 6000 0];
     LOGG := [b64 1 0; b64 2 0; b64 3 0; b64 5 0];
     FE_H := [b64 0 0; b64 1 (-1); b64 1 0; b64 1 (-2)] |}.

(** A model for evaluation: it returns the first three flux values *)
Definition ex_predict (model : unit) (g : nat) (x : vector) : option vector * nat :=
  (Some (take 3 x), g).

(** A perturbation for evaluation: it adds the generator state to every
    flux value and advances the generator *)
Definition ex_perturb (g : nat) (x : vector) : vector * nat :=
  (map (SFadd 53 1024 (b64 (Z.of_nat g) 0)) x, S g).

(** ** What the cell returns, traced to the file *)

(** The rows of [np.column_stack((F["TEFF"][:],F["LOGG"][:],F["FE_H"][:]))] *)
Definition label_rows (F : h5file) : matrix :=
  zip_with (λ x yz, x :: yz) (TEFF F) (zip_with (λ y z, [y; z]) (LOGG F) (FE_H F)).

(** A pair of a returned spectrum and a returned label vector that comes
    from row [i] of the file: the spectrum is the flux of that row with NaN
    replaced and every value wrapped as a channel, its standard deviation
    is not zero, and the label vector is the normalized TEFF, LOGG and FE_H
    of the same row *)
Definition from_file_row (prec emax : Z) (np_std : vector → float) (F : h5file)
    (mean_labels std_labels : vector) (spectrum3 : list (list float)) (label : vector)
  : Prop :=
  ∃ i raw t g f,
    spectrum F !! i = Some raw ∧ TEFF F !! i = Some t ∧
    LOGG F !! i = Some g ∧ FE_H F !! i = Some f ∧
    spectrum3 = map (λ x, [x]) (map fix_nan raw) ∧
    SFeqb (np_std (map fix_nan raw)) zero = false ∧
    label = zip_with (SFdiv prec emax)
              (zip_with (SFsub prec emax) [t; g; f] mean_labels) std_labels.


(** * The network of [build_model]

    ** Shapes and weights of the Keras graph

    [build_model] is called on a symbolic tensor; what the call fixes is
    the shape of every tensor of the graph and the number of weights of
    every layer, the two columns of [model.summary()].  A symbolic tensor
    is its shape without the batch axis; the weights created so far are
    threaded through the layer calls, and a layer that cannot be applied
    to its input raises ValueError. *)

Abbreviation shape := (list N).

Record weights := { trainable : N; non_trainable : N }.

Definition keras (A : Type) : Type := weights → result (A * weights).

#[global] Instance keras_ret : MRet keras := λ A a w, Ok (a, w).
#[global] Instance keras_bind : MBind keras := λ A B f m w,
  match m w with
  | Ok (a, w') => f a w'
  | Raise e => Raise e
  end.

Definition raise {A} (e : exn) : keras A := λ _, Raise e.

Definition lift {A} (r : result A) : keras A := λ w,
  match r with
  | Ok a => Ok (a, w)
  | Raise e => Raise e
  end.

(** [self.add_weight] for [t] trainable and [nt] non-trainable entries *)
Definition add_weight (t nt : N) : keras unit := λ w,
  Ok (tt, {| trainable := trainable w + t; non_trainable := non_trainable w + nt |}%N).

(** The number of entries of a tensor of the given shape *)
Definition size (s : shape) : N := foldr N.mul 1%N s.

Inductive activation := linear | relu.

(** [Input(shape=...)] *)
Definition Input (s : shape) : shape := s.

(** [Conv1D(filters=, kernel_size=, padding="same", use_bias=)]: a kernel of
    [kernel_size * channels * filters] entries and a bias per filter; with
    padding "same" and stride 1 the steps are kept.  The layer works on the
    last two axes, steps and channels, and refuses an input of fewer axes.
    An input of more axes is refused by Keras 1 and 2 ([ndim=3] with the
    batch axis) and taken by tf.keras ([min_ndim=3]), which treats the
    leading axes as further batch axes: [batch_axes] says which. *)
Definition Conv1D (batch_axes : bool) (filters kernel_size : N) (use_bias : bool)
    (x : shape) : keras shape :=
  match reverse x with
  | channels :: steps :: batch =>
      let conv : keras shape :=
        add_weight (kernel_size * channels * filters + (if use_bias then filters else 0)) 0;;
        mret (reverse batch ++ [steps; filters]) in
      match batch with
      | [] => conv
      | _ :: _ => if batch_axes then conv else raise ValueError
      end
  | _ => raise ValueError
  end.

(** [InstanceNormalization()] of keras_contrib, [axis=None]: one scale and
    one offset whatever the shape *)
Definition InstanceNormalization (x : shape) : keras shape :=
  add_weight 2 0;; mret x.

(** [Reshape(target_shape)]: the entries must be as many as the target's *)
Definition Reshape (target_shape : shape) (x : shape) : keras shape :=
  if decide (size x = size target_shape) then mret target_shape
  else raise ValueError.

(** [UpSampling2D(size=(h, w))] on rows, columns, channels *)
Definition UpSampling2D (size : N * N) (x : shape) : keras shape :=
  match x with
  | [rows; cols; channels] => mret [size.1 * rows; size.2 * cols; channels]%N
  | _ => raise ValueError
  end.

Definition Activation (f : activation) (x : shape) : keras shape := mret x.

Definition Dropout (rate : Q) (x : shape) : keras shape := mret x.

(** One axis of the output of a merge layer: equal sizes, or one of them 1 *)
Definition broadcast_dim (i j : N) : result N :=
  if decide (i = 1%N) then Ok j
  else if decide (j = 1%N) then Ok i
  else if decide (i = j) then Ok i
  else Raise ValueError.

(** The output shape of an element-wise merge of two tensors of one rank,
    as all operands of [Add] in [build_model] are *)
Fixpoint elemwise_shape (a b : shape) : result shape :=
  match a, b with
  | [], [] => Ok []
  | i :: a, j :: b =>
      d ← broadcast_dim i j;
      rest ← elemwise_shape a b;
      Ok (d :: rest)
  | _, _ => Raise ValueError
  end.

(** [Add()([x, y])] *)
Definition Add (inputs : shape * shape) : keras shape :=
  lift (elemwise_shape inputs.1 inputs.2).

(** [AveragePooling1D(pool_size=)]: stride [pool_size], padding "valid" *)
Definition AveragePooling1D (pool_size : N) (x : shape) : keras shape :=
  match x with
  | [steps; channels] =>
      if decide (0 < pool_size ≤ steps)%N
      then mret [(steps - pool_size) / pool_size + 1; channels]%N
      else raise ValueError
  | _ => raise ValueError
  end.

Definition Flatten (x : shape) : keras shape := mret [size x].

(** [Dense(units)]: a kernel and a bias on the last axis *)
Definition Dense (units : N) (x : shape) : keras shape :=
  match last x with
  | Some n => add_weight (n * units + units) 0;; mret (removelast x ++ [units])
  | None => raise ValueError
  end.

(** [BatchNormalization()]: scale and offset are trained, the moving mean
    and variance are not *)
Definition BatchNormalization (x : shape) : keras shape :=
  match last x with
  | Some n => add_weight (2 * n) (2 * n);; mret x
  | None => raise ValueError
  end.

(** What [model.summary()] reports of [Model(inputs, outputs)] *)
Record summary := {
  input_shape : shape;
  output_shape : shape;
  trainable_params : N;
  non_trainable_params : N
}.

Definition total_params (m : summary) : N :=
  (trainable_params m + non_trainable_params m)%N.

Definition Model (inputs outputs : shape) : keras summary := λ w,
  Ok ({| input_shape := inputs; output_shape := outputs;
         trainable_params := trainable w; non_trainable_params := non_trainable w |}, w).

(** A model built from no weights *)
Definition built (m : keras summary) : result summary :=
  match m {| trainable := 0; non_trainable := 0 |}%N with
  | Ok (s, _) => Ok s
  | Raise e => Raise e
  end.

Section Network.

(** The hyper parameters, globals of the notebook *)
Variables num_fluxes num_labels num_filters filter_length pool_length : N.
Variable num_hidden : list N.

(** Whether the Keras at hand takes inputs of more than two axes in
    [Conv1D] *)
Variable batch_axes : bool.

Definition build_model (input_spec : shape) : keras summary :=
  x ← Conv1D batch_axes 1 1 false input_spec;
  normed_spec ← InstanceNormalization x;
  normed_spec ← Reshape [num_fluxes; 1; 1]%N normed_spec;
  repeated_spec ← UpSampling2D (1, num_filters)%N normed_spec;
  repeated_spec ← Reshape [num_fluxes; num_filters] repeated_spec;
  x ← Reshape [num_fluxes; 1]%N normed_spec;
  x ← Conv1D batch_axes num_filters filter_length true x;
  x ← Activation relu x;
  x ← InstanceNormalization x;
  x ← Conv1D batch_axes num_filters filter_length true x;
  x ← Activation relu x;
  x ← InstanceNormalization x;
  x ← Add (x, repeated_spec);
  x ← Dropout 0.2 x;
  x ← Conv1D batch_axes num_filters filter_length true x;
  x ← Activation relu x;
  x ← InstanceNormalization x;
  x ← Conv1D batch_axes num_filters filter_length true x;
  x ← Activation relu x;
  x ← InstanceNormalization x;
  x ← Add (x, repeated_spec);
  x ← AveragePooling1D pool_length x;
  x ← Dropout 0.2 x;
  x ← Flatten x;
  h ← lift (getitem num_hidden 0);
  x ← Dense h x;
  x ← Activation relu x;
  x ← BatchNormalization x;
  x ← Dropout 0.3 x;
  h ← lift (getitem num_hidden 1);
  x ← Dense h x;
  x ← Activation relu x;
  x ← BatchNormalization x;
  x ← Dropout 0.2 x;
  output_pred ← Dense num_labels x;
  Model input_spec output_pred.

Definition build_normalizer_model (input_spec : shape) : keras summary :=
  x ← Conv1D batch_axes 1 1 false input_spec;
  normed_spec ← InstanceNormalization x;
  Model input_spec normed_spec.

Definition build_upsample_model (input_spec : shape) : keras summary :=
  x ← Conv1D batch_axes 1 1 false input_spec;
  normed_spec ← InstanceNormalization x;
  normed_spec ← Reshape [num_fluxes; 1; 1]%N normed_spec;
  repeated_spec ← UpSampling2D (1, num_filters)%N normed_spec;
  repeated_spec ← Reshape [num_fluxes; num_filters] repeated_spec;
  Model input_spec repeated_spec.

End Network.

(** ** The values of the upsampling branch

    One sample through [Reshape((num_fluxes,1,1))],
    [UpSampling2D(size=(1, num_filters))] and
    [Reshape((num_fluxes,num_filters))]: a reshape regroups the entries in
    row-major order, the upsampling repeats every row and every column. *)

(** [n] consecutive groups of [k] entries *)
Definition groups {T} (n k : nat) (flat : list T) : list (list T) :=
  reshape (replicate n k) flat.

(** [K.reshape] of one sample to two and to three axes *)
Definition reshape2 {T} (a b : nat) (flat : list T) : result (list (list T)) :=
  if decide (length flat = a * b) then Ok (groups a b flat)
  else Raise ValueError.

Definition reshape3 {T} (a b c : nat) (flat : list T) : result (list (list (list T))) :=
  if decide (length flat = a * (b * c)) then Ok (map (groups b c) (groups a (b * c) flat))
  else Raise ValueError.

(** [K.repeat_elements(x, rep, axis)] on the outer axis *)
Definition repeat_elements {T} (rep : nat) (x : list T) : list T :=
  x ≫= replicate rep.

(** [K.resize_images] by whole factors, the call of [UpSampling2D] *)
Definition resize_images {T} (height_factor width_factor : nat)
    (x : list (list (list T))) : list (list (list T)) :=
  repeat_elements height_factor (map (repeat_elements width_factor) x).

(** [repeated_spec] of [build_model] and [build_upsample_model] from the
    value [normed_spec] of the instance normalisation *)
Definition repeated_spec {T} (num_fluxes num_filters : nat)
    (normed_spec : list (list T)) : result (list (list T)) :=
  normed_spec ← reshape3 num_fluxes 1 1 (concat normed_spec);
  let repeated_spec := resize_images 1 num_filters normed_spec in
  reshape2 num_fluxes num_filters (concat (concat repeated_spec)).

(** * The statistics file

    An array file holds the shape of the array and its entries in
    row-major order.  [np.save] writes a 2-D array so; [np.load] regroups
    the entries by the shape and refuses a file whose entries are not as
    many as its shape says. *)





(** * Facts *)

(** ** Facts on indexing and on [np.where] *)

Lemma matrix_ext {A} (a b : list (list A)) :
  length a = length b →
  (∀ i j, get2 a i j = get2 b i j) →
  a = b.
Proof.
  intros Hlen Hget. apply list_eq. intros i.
  destruct (a !! i) as [ra|] eqn:Ha, (b !! i) as [rb|] eqn:Hb; trivial.
  - f_equal. apply list_eq. intros j.
    specialize (Hget i j). unfold get2 in Hget.
    by rewrite Ha, Hb in Hget.
  - apply lookup_lt_Some in Ha. apply lookup_ge_None in Hb. lia.
  - apply lookup_ge_None in Ha. apply lookup_lt_Some in Hb. lia.
Qed.

Lemma length_setitem2 {A} (a : list (list A)) ij (v : A) :
  length (setitem2 a ij v) = length a.
Proof.
  unfold setitem2. destruct (a !! ij.1); [apply length_insert | done].
Qed.

Lemma get2_setitem2 {A} (a : list (list A)) ij (v : A) i j :
  get2 (setitem2 a ij v) i j =
  if decide (ij = (i, j)) then (λ _, v) <$> get2 a i j else get2 a i j.
Proof.
  destruct ij as [i0 j0]. unfold setitem2, get2. simpl.
  destruct (a !! i0) as [row|] eqn:Hrow.
  - destruct (decide (i0 = i)) as [->|Hi].
    + rewrite list_lookup_insert_eq by (by eapply lookup_lt_Some).
      rewrite Hrow. simpl.
      destruct (decide (j0 = j)) as [->|Hj].
      * rewrite decide_True by done.
        destruct (row !! j) eqn:Hj.
        -- rewrite list_lookup_insert_eq by (by eapply lookup_lt_Some). done.
        -- rewrite list_insert_ge by (by apply lookup_ge_None). by rewrite Hj.
      * rewrite decide_False by congruence.
        by rewrite list_lookup_insert_ne.
    + rewrite decide_False by congruence.
      by rewrite list_lookup_insert_ne.
  - case_decide as Heq; [|done].
    injection Heq as -> ->. by rewrite Hrow.
Qed.

Lemma length_setitems {A} (a : list (list A)) idx (v : A) :
  length (setitems a idx v) = length a.
Proof.
  unfold setitems. generalize (zip idx.1 idx.2). intros l.
  revert a. induction l as [|ij l IH]; intros a; simpl; [done|].
  by rewrite IH, length_setitem2.
Qed.

Lemma get2_setitems {A} (a : list (list A)) idx (v : A) i j :
  get2 (setitems a idx v) i j =
  if decide ((i, j) ∈ zip idx.1 idx.2) then (λ _, v) <$> get2 a i j else get2 a i j.
Proof.
  unfold setitems. generalize (zip idx.1 idx.2). intros l.
  revert a. induction l as [|ij l IH]; intros a.
  - cbn [foldl]. destruct (decide ((i, j) ∈ [])) as [Hin|_]; [by apply elem_of_nil in Hin | done].
  - cbn [foldl]. rewrite IH, get2_setitem2.
    destruct (decide ((i, j) ∈ l)) as [Hin|Hin].
    + rewrite (decide_True (P := (i, j) ∈ ij :: l)) by (by right).
      case_decide; [|done]. by destruct (get2 a i j).
    + destruct (decide (ij = (i, j))) as [->|Hne].
      * by rewrite (decide_True (P := (i, j) ∈ (i, j) :: l)) by left.
      * rewrite (decide_False (P := (i, j) ∈ ij :: l)); [done|].
        intros [?|?]%elem_of_cons; congruence.
Qed.

Lemma zip_fst_snd {A B} (l : list (A * B)) : zip (l.*1) (l.*2) = l.
Proof. induction l as [|[a b] l IH]; simpl; by f_equal. Qed.

Lemma elem_of_where_row i j0 row i' j :
  (i', j) ∈ where_row i j0 row ↔ i' = i ∧ j0 ≤ j ∧ row !! (j - j0) = Some true.
Proof.
  revert j0. induction row as [|b row IH]; intros j0; simpl.
  - split; [by intros ?%elem_of_nil | by intros (_ & _ & ?)].
  - rewrite elem_of_app, IH. split.
    + intros [Hb|(-> & Hle & Hl)].
      * destruct b; [|by apply elem_of_nil in Hb].
        apply list_elem_of_singleton in Hb. injection Hb as -> ->.
        by rewrite Nat.sub_diag.
      * split; [done|]. split; [lia|].
        by replace (j - j0) with (S (j - S j0)) by lia.
    + intros (-> & Hle & Hl).
      destruct (decide (j = j0)) as [->|Hne].
      * left. rewrite Nat.sub_diag in Hl. simpl in Hl.
        injection Hl as ->. apply list_elem_of_singleton. done.
      * right. split; [done|]. split; [lia|].
        by replace (j - j0) with (S (j - S j0)) in Hl by lia.
Qed.

Lemma elem_of_where_from i0 mask i j :
  (i, j) ∈ where_from i0 mask ↔ i0 ≤ i ∧ get2 mask (i - i0) j = Some true.
Proof.
  revert i0. induction mask as [|row mask IH]; intros i0; simpl.
  - split; [by intros ?%elem_of_nil | by intros (_ & ?)].
  - rewrite elem_of_app, elem_of_where_row, IH. split.
    + intros [(-> & _ & Hl)|(Hle & Hl)].
      * rewrite Nat.sub_diag. split; [done|].
        by rewrite Nat.sub_0_r in Hl.
      * split; [lia|]. by replace (i - i0) with (S (i - S i0)) by lia.
    + intros (Hle & Hl).
      destruct (decide (i = i0)) as [->|Hne].
      * left. rewrite Nat.sub_diag in Hl. split; [done|].
        split; [lia|]. by rewrite Nat.sub_0_r.
      * right. split; [lia|].
        by replace (i - i0) with (S (i - S i0)) in Hl by lia.
Qed.

(** The indexed assignment of [nan_to_zero] is the element-wise
    replacement of NaN by [0.]; the shape is unchanged. *)

Lemma nan_to_zero_map (spectra : matrix) :
  nan_to_zero spectra = map (map fix_nan) spectra.
Proof.
  unfold nan_to_zero. apply matrix_ext.
  - by rewrite length_setitems, length_map.
  - intros i j. rewrite get2_setitems.
    unfold np_where. simpl. rewrite zip_fst_snd.
    unfold get2. rewrite list_lookup_fmap.
    destruct (spectra !! i) as [row|] eqn:Hrow; simpl.
    + rewrite list_lookup_fmap.
      destruct (row !! j) as [x|] eqn:Hx; simpl.
      * case_decide as Hin.
        -- apply elem_of_where_from in Hin as [_ Hin].
           rewrite Nat.sub_0_r in Hin. unfold get2 in Hin.
           rewrite list_lookup_fmap, Hrow in Hin. simpl in Hin.
           rewrite list_lookup_fmap, Hx in Hin. simpl in Hin.
           injection Hin as Hin. unfold fix_nan. by rewrite Hin.
        -- unfold fix_nan. destruct (isnan x) eqn:Hnan; [|done].
           exfalso. apply Hin. apply elem_of_where_from.
           split; [lia|]. rewrite Nat.sub_0_r. unfold get2.
           rewrite list_lookup_fmap, Hrow. simpl.
           by rewrite list_lookup_fmap, Hx; simpl; rewrite Hnan.
      * by case_decide.
    + by case_decide.
Qed.

(** ** Facts on the selection by a mask *)

Lemma where_from_col i (keep : list bool) :
  where_from i (reshape_col keep) = (λ k, (k, 0)) <$> true_indices i keep.
Proof.
  revert i. induction keep as [|b keep IH]; intros i; simpl; [done|].
  rewrite fmap_app, IH. by destruct b.
Qed.

Lemma np_where_col (keep : list bool) :
  (np_where (reshape_col keep)).1 = true_indices 0 keep.
Proof.
  unfold np_where. simpl. rewrite where_from_col, <- list_fmap_compose.
  apply list_fmap_id.
Qed.

Lemma getitem_middle {A} (pre a : list A) (x : A) :
  getitem (pre ++ x :: a) (length pre) = Ok x.
Proof. unfold getitem. by rewrite list_lookup_middle. Qed.

Lemma take_rows_true_indices {A} (pre a : list A) (keep : list bool) :
  length keep ≤ length a →
  take_rows (pre ++ a) (true_indices (length pre) keep) = Ok (select keep a).
Proof.
  unfold take_rows. revert pre a.
  induction keep as [|b keep IH]; intros pre a Hlen; simpl; [done|].
  destruct a as [|x a]; simpl in Hlen; [lia|].
  specialize (IH (pre ++ [x]) a ltac:(lia)).
  rewrite length_app, Nat.add_1_r, <- (assoc (++)) in IH. simpl in IH.
  destruct b; simpl.
  - by rewrite getitem_middle, IH.
  - done.
Qed.

Lemma take_rows_select {A} (a : list A) (keep : list bool) :
  length keep ≤ length a → take_rows a (true_indices 0 keep) = Ok (select keep a).
Proof. apply (take_rows_true_indices [] a). Qed.

Lemma select_map_filter {A} (f : A → bool) (a : list A) :
  select (map f a) a = filter (λ x, f x = true) a.
Proof.
  induction a as [|x a IH]; simpl; [done|].
  rewrite filter_cons, IH. destruct (f x).
  - by rewrite decide_True.
  - by rewrite decide_False.
Qed.

Lemma zip_nil_r {A B} (a : list A) : zip a (@nil B) = [].
Proof. by destruct a. Qed.

Lemma select_zip {A B} (keep : list bool) (a : list A) (b : list B) :
  select keep (zip a b) = zip (select keep a) (select keep b).
Proof.
  revert a b. induction keep as [|k keep IH]; intros a b; [done|].
  destruct a as [|x a]; [done|].
  destruct b as [|y b]; [simpl; by rewrite zip_nil_r|].
  simpl. rewrite IH. by destruct k.
Qed.

(** ** [int(0.9*len(labels))] is defined for every array length *)

Lemma digits2_pos_size (p : positive) : digits2_pos p = Pos.size p.
Proof. induction p; simpl; by f_equal. Qed.

Lemma Zdigits2_le (m k : Z) : (0 ≤ m < 2 ^ k)%Z → (0 ≤ k)%Z → (Zdigits2 m ≤ k)%Z.
Proof.
  intros [Hm0 Hmk] Hk. destruct m as [|p|p]; simpl; [done| |lia].
  rewrite digits2_pos_size.
  assert (Z.log2 (Zpos p) < k)%Z as Hlog by (by apply Z.log2_lt_pow2).
  destruct p; cbn [Z.log2 Pos.size] in *; rewrite ?Pos2Z.inj_succ; try lia.
Qed.

Lemma shr_1_bound (mrs : shr_record) (B : Z) :
  (0 ≤ shr_m mrs ≤ B)%Z → (0 ≤ shr_m (shr_1 mrs) ≤ B)%Z.
Proof.
  destruct mrs as [m r s]. simpl.
  destruct m as [|[p|p|]|[p|p|]]; simpl; lia.
Qed.

Lemma iter_shr_1_bound (n : positive) (mrs : shr_record) (B : Z) :
  (0 ≤ shr_m mrs ≤ B)%Z → (0 ≤ shr_m (SpecFloat.iter_pos shr_1 n mrs) ≤ B)%Z.
Proof.
  revert mrs. induction n as [n IH|n IH|]; intros mrs H; simpl.
  - by apply IH, IH, shr_1_bound.
  - by apply IH, IH.
  - by apply shr_1_bound.
Qed.

Lemma shr_fexp_bound (m e : Z) (l : location) (k : Z) :
  (0 ≤ m < 2 ^ k)%Z → (0 ≤ k)%Z →
  let '(mrs, e') := shr_fexp py_prec py_emax m e l in
  (0 ≤ shr_m mrs ≤ m)%Z ∧ (e' ≤ Z.max e (Z.max (k + e - 53) (-1074)))%Z.
Proof.
  intros Hm Hk. unfold shr_fexp, shr.
  pose proof (Zdigits2_le m k Hm Hk) as Hd.
  assert (0 ≤ shr_m (shr_record_of_loc m l) ≤ m)%Z as H0
    by (destruct l as [|[]]; simpl; lia).
  unfold fexp, emin, py_prec, py_emax.
  destruct (Z.max (Zdigits2 m + e - 53) (3 - 1024 - 53) - e)%Z eqn:Hn.
  - split; [done | lia].
  - split; [by apply iter_shr_1_bound | lia].
  - split; [done | lia].
Qed.

Lemma round_nearest_even_bound (m : Z) (l : location) :
  (0 ≤ m)%Z → (0 ≤ round_nearest_even m l ≤ m + 1)%Z.
Proof.
  intros Hm. unfold round_nearest_even.
  destruct l as [|[]]; [lia| |lia|lia]. destruct (Z.even m); lia.
Qed.

Lemma binary_round_aux_bounded (sx : bool) (mx ex : Z) (lx : location) (k E : Z) :
  (0 ≤ mx < 2 ^ k)%Z → (0 ≤ k)%Z → (ex ≤ E)%Z →
  (Z.max E (k + E - 53) + Z.max 0 (k - 52) ≤ 971)%Z →
  (-1074 ≤ E)%Z →
  bounded_float (2 ^ k) (Z.max E (k + E - 53) + Z.max 0 (k - 52))
    (binary_round_aux py_prec py_emax sx mx ex lx).
Proof.
  intros Hm Hk He HE HE0. unfold binary_round_aux.
  pose proof (shr_fexp_bound mx ex lx k Hm Hk) as H1.
  destruct (shr_fexp py_prec py_emax mx ex lx) as [mrs' e'].
  destruct H1 as [Hm' He'].
  pose proof (round_nearest_even_bound (shr_m mrs') (loc_of_shr_record mrs')
                ltac:(lia)) as Hr.
  set (m1 := round_nearest_even _ _) in *.
  assert (2 ^ (k + 1) = 2 * 2 ^ k)%Z as Hpow
    by (rewrite Z.pow_add_r by lia; lia).
  pose proof (shr_fexp_bound m1 e' loc_Exact (k + 1) ltac:(lia) ltac:(lia)) as H2.
  destruct (shr_fexp py_prec py_emax m1 e' loc_Exact) as [mrs'' e''].
  destruct H2 as [Hm'' He''].
  destruct (shr_m mrs'') as [|m|m] eqn:Hs; simpl; [done| |lia].
  unfold py_emax, py_prec.
  destruct (Z.leb_spec e'' (1024 - 53)) as [Hle|Hgt]; simpl; lia.
Qed.

Lemma Pos_iter_xO (p d : positive) :
  Zpos (Pos.iter xO p d) = (Zpos p * 2 ^ Zpos d)%Z.
Proof.
  induction d as [|d IH] using Pos.peano_ind.
  - simpl. lia.
  - rewrite Pos.iter_succ, Pos2Z.inj_xO, IH, Pos2Z.inj_succ, Z.pow_succ_r; lia.
Qed.

Lemma float_of_int_bounded (n : Z) :
  (0 ≤ n < 2 ^ 63)%Z → bounded_float (2 ^ 116) 127 (float_of_int n).
Proof.
  intros Hn. unfold float_of_int, binary_normalize.
  destruct n as [|p|p]; [done| |lia].
  unfold binary_round, shl_align.
  pose proof (Zdigits2_le (Zpos p) 63 Hn ltac:(lia)) as Hd. simpl in Hd.
  unfold fexp, emin, py_prec, py_emax.
  destruct (Z.max (Zpos (digits2_pos p) + 0 - 53) (3 - 1024 - 53) - 0)%Z
    as [|d|d] eqn:Hdiff.
  - apply (binary_round_aux_bounded _ _ _ _ 116 0); lia.
  - apply (binary_round_aux_bounded _ _ _ _ 116 0); lia.
  - assert (Zpos d ≤ 53)%Z by lia.
    assert (2 ^ Zpos d ≤ 2 ^ 53)%Z by (apply Z.pow_le_mono_r; lia).
    apply (binary_round_aux_bounded _ _ _ _ 116 0); [|lia..].
    rewrite Pos_iter_xO. split; [lia|].
    change (2 ^ 116)%Z with (2 ^ 63 * 2 ^ 53)%Z. nia.
Qed.

Lemma num_train_of_total (n : nat) :
  (Z.of_nat n < 2 ^ 63)%Z → ∃ k, num_train_of n = Ok k.
Proof.
  intros Hn. unfold num_train_of.
  pose proof (float_of_int_bounded (Z.of_nat n) ltac:(lia)) as Hb.
  destruct (float_of_int (Z.of_nat n)) as [| | |s m e]; try done.
  - simpl. eauto.
  - destruct Hb as [Hm He]. unfold lit_0_9, SFmul.
    pose proof (binary_round_aux_bounded (xorb false s)
      (Zpos (8106479329266893 * m)) (-53 + e) loc_Exact 169 74) as Hmul.
    destruct (binary_round_aux py_prec py_emax (xorb false s)
      (Zpos (8106479329266893 * m)) (-53 + e) loc_Exact) as [| | |s' m' e'];
      simpl; eauto.
    + exfalso. apply Hmul; lia.
    + exfalso. apply Hmul; lia.
Qed.

(** ** [int(0.9*len(labels))] is at most the array length

    The rounding of [binary_round_aux] exceeds the exact value by at most
    one part in 2^52; two roundings of 0.9 * n stay below n. *)

Section RoundingBounds.

Local Open Scope Z_scope.

Lemma shr_1_half (mrs : shr_record) :
  0 ≤ shr_m mrs → 0 ≤ shr_m (shr_1 mrs) ∧ 2 * shr_m (shr_1 mrs) ≤ shr_m mrs.
Proof.
  destruct mrs as [m r s]. simpl.
  destruct m as [|[p|p|]|[p|p|]]; simpl; lia.
Qed.

Lemma iter_shr_1_le (p : positive) (mrs : shr_record) :
  0 ≤ shr_m mrs →
  0 ≤ shr_m (SpecFloat.iter_pos shr_1 p mrs)
  ∧ shr_m (SpecFloat.iter_pos shr_1 p mrs) * 2 ^ Zpos p ≤ shr_m mrs.
Proof.
  revert mrs. induction p as [p IH|p IH|]; intros mrs Hm; simpl SpecFloat.iter_pos.
  - destruct (shr_1_half mrs Hm) as [H1 H1'].
    destruct (IH _ H1) as [H2 H2']. destruct (IH _ H2) as [H3 H3'].
    split; [done|].
    replace (Z.pos p~1) with (Z.pos p + Z.pos p + 1) by lia.
    rewrite !Z.pow_add_r by lia.
    change (2 ^ 1) with 2. set (P := 2 ^ Z.pos p) in *.
    assert (0 < P) by (apply Z.pow_pos_nonneg; lia). nia.
  - destruct (IH _ Hm) as [H2 H2']. destruct (IH _ H2) as [H3 H3'].
    split; [done|].
    replace (Z.pos p~0) with (Z.pos p + Z.pos p) by lia.
    rewrite Z.pow_add_r by lia.
    set (P := 2 ^ Z.pos p) in *.
    assert (0 < P) by (apply Z.pow_pos_nonneg; lia). nia.
  - destruct (shr_1_half mrs Hm). change (2 ^ 1) with 2. lia.
Qed.

Lemma Zdigits2_lower (m : Z) : 0 < m → 2 ^ (Zdigits2 m - 1) ≤ m.
Proof.
  intros Hm. destruct m as [|p|p]; [lia| |lia]. simpl Zdigits2.
  rewrite digits2_pos_size.
  pose proof (Z.log2_spec (Zpos p) ltac:(lia)) as [Hlog _].
  replace (Zpos (Pos.size p) - 1) with (Z.log2 (Zpos p)); [done|].
  destruct p; simpl; lia.
Qed.

Lemma shr_fexp_le (m e : Z) (l : location) :
  0 ≤ m →
  let '(mrs, e') := shr_fexp py_prec py_emax m e l in
  0 ≤ shr_m mrs ∧ e ≤ e' ∧ shr_m mrs * 2 ^ (e' - e) ≤ m
  ∧ ((e' = e ∧ mrs = shr_record_of_loc m l)
     ∨ (e < e' ∧ e' = fexp py_prec py_emax (Zdigits2 m + e))).
Proof.
  intros Hm. unfold shr_fexp, shr.
  assert (shr_m (shr_record_of_loc m l) = m) as Hrec by (by destruct l as [|[]]).
  destruct (fexp py_prec py_emax (Zdigits2 m + e) - e) as [|p|p] eqn:Hn.
  - rewrite Hrec, Z.sub_diag. simpl. split; [done|]. split; [done|].
    split; [lia|]. by left.
  - destruct (iter_shr_1_le p (shr_record_of_loc m l) ltac:(lia)) as [H1 H2].
    rewrite Hrec in H2. split; [done|]. split; [lia|].
    replace (e + Z.pos p - e) with (Z.pos p) by lia. split; [done|].
    right. lia.
  - rewrite Hrec, Z.sub_diag. simpl. split; [done|]. split; [done|].
    split; [lia|]. by left.
Qed.

Lemma binary_round_aux_le (sx : bool) (mx ex : Z) :
  0 < mx → -1074 ≤ ex →
  match binary_round_aux py_prec py_emax sx mx ex loc_Exact with
  | S754_finite s m e =>
      s = sx ∧ ex ≤ e ∧ Zpos m * 2 ^ (e - ex) * 2 ^ 52 ≤ mx * (2 ^ 52 + 1)
  | _ => True
  end.
Proof.
  intros Hm He. unfold binary_round_aux.
  pose proof (shr_fexp_le mx ex loc_Exact ltac:(lia)) as H1.
  destruct (shr_fexp py_prec py_emax mx ex loc_Exact) as [mrs' e'].
  destruct H1 as (Hm'0 & He' & Hm' & Hcase).
  pose proof (round_nearest_even_bound (shr_m mrs') (loc_of_shr_record mrs') Hm'0) as Hr.
  assert (round_nearest_even (shr_m mrs') (loc_of_shr_record mrs') * 2 ^ (e' - ex) * 2 ^ 52
          ≤ mx * (2 ^ 52 + 1)) as Hm1.
  { destruct Hcase as [[-> ->]|[Hlt ->]].
    - simpl. rewrite Z.sub_diag. simpl. lia.
    - unfold fexp, emin, py_prec, py_emax in *.
      pose proof (Zdigits2_lower mx Hm) as Hd.
      assert (Z.max (Zdigits2 mx + ex - 53) (3 - 1024 - 53) - ex = Zdigits2 mx - 53) as Hn by lia.
      rewrite Hn in *.
      replace (Zdigits2 mx - 1) with (Zdigits2 mx - 53 + 52) in Hd by lia.
      rewrite Z.pow_add_r in Hd by lia.
      set (P := 2 ^ (Zdigits2 mx - 53)) in *.
      assert (0 < P) by (apply Z.pow_pos_nonneg; lia).
      set (r := round_nearest_even _ _) in *. nia. }
  set (m1 := round_nearest_even _ _) in *.
  pose proof (shr_fexp_le m1 e' loc_Exact ltac:(lia)) as H2.
  destruct (shr_fexp py_prec py_emax m1 e' loc_Exact) as [mrs'' e''].
  destruct H2 as (Hm''0 & He'' & Hm'' & _).
  destruct (shr_m mrs'') as [|m|m] eqn:Hs; [done| |done].
  destruct (e'' <=? py_emax - py_prec); [|done].
  split; [done|]. split; [lia|].
  replace (e'' - ex) with ((e'' - e') + (e' - ex)) by lia.
  rewrite Z.pow_add_r by lia.
  set (P1 := 2 ^ (e' - ex)) in *. set (P2 := 2 ^ (e'' - e')) in *.
  assert (0 < P1) by (apply Z.pow_pos_nonneg; lia).
  assert (0 < P2) by (apply Z.pow_pos_nonneg; lia).
  nia.
Qed.

(** [float(n)] exceeds [n] by at most one part in 2^52 *)
Lemma float_of_int_le (p : positive) :
  match float_of_int (Zpos p) with
  | S754_finite s m e =>
      s = false ∧
      ∃ c, 0 ≤ c ≤ 52 ∧ -c ≤ e
           ∧ Zpos m * 2 ^ (e + c) * 2 ^ 52 ≤ Zpos p * 2 ^ c * (2 ^ 52 + 1)
  | _ => True
  end.
Proof.
  unfold float_of_int, binary_normalize, binary_round, shl_align.
  assert (1 ≤ Zpos (digits2_pos p)) as Hd by lia.
  unfold fexp, emin, py_prec, py_emax.
  destruct (Z.max (Zpos (digits2_pos p) + 0 - 53) (3 - 1024 - 53) - 0)
    as [|d|d] eqn:Hdiff.
  - pose proof (binary_round_aux_le false (Zpos p) 0 ltac:(lia) ltac:(lia)) as H.
    unfold py_prec, py_emax in H.
    destruct (binary_round_aux 53 1024 false (Zpos p) 0 loc_Exact); try done.
    split; [apply H|].
    exists 0. rewrite Z.add_0_r, Z.sub_0_r in *. change (2 ^ 0) with 1. lia.
  - pose proof (binary_round_aux_le false (Zpos p) 0 ltac:(lia) ltac:(lia)) as H.
    unfold py_prec, py_emax in H.
    destruct (binary_round_aux 53 1024 false (Zpos p) 0 loc_Exact); try done.
    split; [apply H|].
    exists 0. rewrite Z.add_0_r, Z.sub_0_r in *. change (2 ^ 0) with 1. lia.
  - assert (Z.max (Zpos (digits2_pos p) + 0 - 53) (3 - 1024 - 53) = Zneg d) as -> by lia.
    pose proof (binary_round_aux_le false (Zpos (Pos.iter xO p d)) (Zneg d)
                  ltac:(lia) ltac:(lia)) as H.
    unfold py_prec, py_emax in H.
    destruct (binary_round_aux 53 1024 false _ (Zneg d) loc_Exact)
      as [| | |s m e]; try done.
    rewrite Pos_iter_xO in H. split; [apply H|]. exists (Zpos d).
    replace (e - Zneg d) with (e + Zpos d) in H by lia. lia.
Qed.

(** [int(0.9*n)] is a number of rows, at most [n] *)
Lemma num_train_of_le (n : nat) (k : Z) :
  num_train_of n = Ok k → 0 ≤ k ≤ Z.of_nat n.
Proof.
  unfold num_train_of. destruct (Z.of_nat n) as [|p|p] eqn:Hn; [| |lia].
  { intros H. vm_compute in H. injection H as <-. lia. }
  pose proof (float_of_int_le p) as Hf.
  destruct (float_of_int (Zpos p)) as [s| | |s m2 e2].
  - intros H. destruct s; vm_compute in H; injection H as <-; lia.
  - done.
  - done.
  - destruct Hf as (-> & c & Hc & Hce & Hf).
    unfold lit_0_9, SFmul.
    pose proof (binary_round_aux_le (xorb false false) (Zpos (8106479329266893 * m2))
                  (-53 + e2) ltac:(lia) ltac:(lia)) as Hmul.
    destruct (binary_round_aux py_prec py_emax (xorb false false) _ (-53 + e2) loc_Exact)
      as [s3| | |s3 m3 e3]; try done.
    { simpl. intros [= <-]. lia. }
    destruct Hmul as (-> & He3 & Hmul). simpl xorb. cbn [int_ cond_Zopp].
    replace (e3 - (-53 + e2)) with (e3 + 53 - e2) in Hmul by lia.
    assert (Zpos m3 * 2 ^ (e3 + 53 + c) ≤ 2 ^ 53 * (Zpos p * 2 ^ c)) as Hkey.
    { replace (e3 + 53 + c) with ((e3 + 53 - e2) + (e2 + c)) by lia.
      rewrite Z.pow_add_r by lia.
      set (A := 2 ^ (e3 + 53 - e2)) in *. set (B := 2 ^ (e2 + c)) in *.
      set (Y := Zpos p * 2 ^ c) in *.
      assert (0 < A) by (apply Z.pow_pos_nonneg; lia).
      assert (0 < B) by (apply Z.pow_pos_nonneg; lia).
      assert (Zpos m3 * A * 2 ^ 52 * (B * 2 ^ 52)
              ≤ Zpos (8106479329266893 * m2) * (2 ^ 52 + 1) * (B * 2 ^ 52)) as H1
        by (apply Z.mul_le_mono_nonneg_r; lia).
      assert (8106479329266893 * (2 ^ 52 + 1) * (Zpos m2 * B * 2 ^ 52)
              ≤ 8106479329266893 * (2 ^ 52 + 1) * (Y * (2 ^ 52 + 1))) as H2
        by (apply Z.mul_le_mono_nonneg_l; lia).
      rewrite Pos2Z.inj_mul in H1.
      set (X := Zpos m3 * (A * B)).
      assert (X * (2 ^ 52 * 2 ^ 52) ≤ 8106479329266893 * (2 ^ 52 + 1) * (2 ^ 52 + 1) * Y)
        as H3 by (unfold X; lia).
      assert (0 ≤ Y) by (unfold Y; apply Z.mul_nonneg_nonneg; [lia|apply Z.pow_nonneg; lia]).
      lia. }
    assert (0 < 2 ^ c) as Hcpos by (apply Z.pow_pos_nonneg; lia).
    intros [= <-]. destruct e3 as [|q|q].
    + rewrite Z.shiftl_0_r. rewrite Z.pow_add_r in Hkey by lia. nia.
    + rewrite Z.shiftl_mul_pow2 by lia.
      replace (Zpos q + 53 + c) with (Zpos q + (53 + c)) in Hkey by lia.
      rewrite Z.pow_add_r, Z.pow_add_r in Hkey by lia.
      assert (0 < 2 ^ Zpos q) by (apply Z.pow_pos_nonneg; lia).
      split; [lia|]. nia.
    + rewrite Z.shiftr_div_pow2 by lia.
      assert (0 < 2 ^ Zpos q) as Hq by (apply Z.pow_pos_nonneg; lia).
      split; [apply Z.div_pos; lia|].
      apply Z.div_le_upper_bound; [done|].
      assert (2 ^ (53 + c) = 2 ^ (Zneg q + 53 + c) * 2 ^ Zpos q) as Hsplit
        by (rewrite <- Z.pow_add_r by lia; f_equal; lia).
      rewrite Z.pow_add_r in Hsplit by lia.
      set (R := 2 ^ (Zneg q + 53 + c)) in *.
      assert (0 < R) by (apply Z.pow_pos_nonneg; lia).
      nia.
Qed.

End RoundingBounds.

(** ** Facts on broadcasting and stacking *)

Lemma result_bind_ok {A B} (a : A) (f : A → result B) : Ok a ≫= f = f a.
Proof. done. Qed.

(** One step of a computation in the error monad whose first action is
    known to return *)
Ltac ok_step H := rewrite H, result_bind_ok; cbv beta iota.

Lemma broadcast_row_same_length {T} (op : T → T → T) (row v : list T) :
  length row = length v → broadcast_row op row v = Ok (zip_with op row v).
Proof. intros H. unfold broadcast_row. by rewrite decide_True. Qed.

Lemma broadcast_same_length {T} (op : T → T → T) (a : list (list T)) (v : list T) :
  Forall (λ row, length row = length v) a →
  broadcast op a v = Ok (map (λ row, zip_with op row v) a).
Proof.
  unfold broadcast. induction 1 as [|row a Hrow _ IH]; [done|].
  cbn [mapM map]. rewrite broadcast_row_same_length by done.
  cbn. by rewrite IH.
Qed.

Lemma normalize_with_same_length {T} (sub div : T → T → T) (D : nat)
    (mean_labels std_labels : list T) (lb : list (list T)) :
  length mean_labels = D → length std_labels = D →
  Forall (λ row, length row = D) lb →
  normalize_with sub div mean_labels std_labels lb =
  Ok (map (λ row, zip_with div (zip_with sub row mean_labels) std_labels) lb).
Proof.
  intros Hm Hs Hlb. unfold normalize_with.
  rewrite broadcast_same_length by (by rewrite Hm). cbn.
  rewrite broadcast_same_length.
  - by rewrite <- list_fmap_compose.
  - apply Forall_fmap. eapply Forall_impl; [exact Hlb|]. intros row Hrow. simpl in *.
    rewrite length_zip_with. lia.
Qed.

Lemma column_stack3_same_length {A} (a b c : list A) :
  length b = length a → length c = length a →
  ∃ rows, column_stack3 a b c = Ok rows ∧ length rows = length a
          ∧ Forall (λ row, length row = 3) rows.
Proof.
  intros Hb Hc. unfold column_stack3. rewrite decide_True by lia.
  eexists. split; [done|]. split.
  - rewrite !length_zip_with. lia.
  - clear Hb Hc. revert b c. induction a as [|x a IH]; intros b c; [done|].
    destruct b as [|y b]; [done|]. destruct c as [|z c]; [done|].
    simpl. constructor; [done | apply IH].
Qed.

(** ** Facts on [select] *)

Lemma length_select {A} (keep : list bool) (a : list A) :
  length keep = length a →
  length (select keep a) = length a - length (filter (λ b, b = false) keep).
Proof.
  revert a. induction keep as [|b keep IH]; intros a Hlen; [simpl in *; lia|].
  destruct a as [|x a]; [done|]. simpl in Hlen.
  cbn [select]. rewrite filter_cons, length_app, IH by lia.
  pose proof (length_filter (λ b, b = false) keep).
  destruct b; [rewrite decide_False by done | rewrite decide_True by done];
    simpl; lia.
Qed.

Lemma select_same_length {A B} (keep : list bool) (a : list A) (b : list B) :
  length a = length b → length (select keep a) = length (select keep b).
Proof.
  revert a b. induction keep as [|k keep IH]; intros a b Hlen; [done|].
  destruct a as [|x a], b as [|y b]; try done. simpl in Hlen.
  cbn [select]. rewrite !length_app, (IH a b) by lia. by destruct k.
Qed.

Lemma Forall_select {A} (P : A → Prop) (keep : list bool) (a : list A) :
  Forall P a → Forall P (select keep a).
Proof.
  intros H. revert keep. induction H as [|x a Hx _ IH]; intros keep.
  - by destruct keep.
  - destruct keep as [|k keep]; [done|]. cbn [select].
    apply Forall_app. split; [|apply IH]. destruct k; by constructor.
Qed.

Lemma select_sublist {A} (keep : list bool) (a : list A) :
  select keep a `sublist_of` a.
Proof.
  revert a. induction keep as [|k keep IH]; intros a.
  - apply sublist_nil_l.
  - destruct a as [|x a]; [done|]. cbn [select].
    destruct k; simpl; [by apply sublist_skip | by apply sublist_cons].
Qed.

(** The pairs kept by a mask computed from the first components *)
Lemma select_zip_filter {A B} (f : A → bool) (a : list A) (b : list B) :
  length a = length b →
  zip (select (map f a) a) (select (map f a) b) =
  filter (λ p, f p.1 = true) (zip a b).
Proof.
  intros Hlen. rewrite <- select_zip.
  rewrite <- (select_map_filter (λ p, f p.1)).
  f_equal. change (map (λ p : A * B, f p.1) (zip a b)) with (f ∘ fst <$> zip a b).
  rewrite list_fmap_compose, fst_zip by lia. done.
Qed.

(** ** Facts on the array file *)

Lemma groups_concat {T} (k : nat) (ls : list (list T)) :
  Forall (λ l, length l = k) ls → groups (length ls) k (concat ls) = ls.
Proof.
  unfold groups. induction 1 as [|l ls Hl _ IH]; [done|].
  simpl. rewrite take_app_length', drop_app_length' by done.
  by rewrite IH.
Qed.



(** ** Facts on the in-place swap *)

Lemma insert_cons_perm {A} (l : list A) (j : nat) (x y : A) :
  l !! j = Some y → y :: <[j := x]> l ≡ₚ x :: l.
Proof.
  revert j. induction l as [|z l IH]; intros j Hj; [done|].
  destruct j as [|j]; simpl in *.
  - injection Hj as ->. apply perm_swap.
  - rewrite (perm_swap z y), (IH j Hj). apply perm_swap.
Qed.

Lemma swap_perm {A} (x : list A) (i j : nat) : swap x i j ≡ₚ x.
Proof.
  unfold swap.
  destruct (x !! i) as [xi|] eqn:Hi; [|done].
  destruct (x !! j) as [xj|] eqn:Hj; [|done].
  revert i j Hi Hj. induction x as [|z x IH]; intros i j Hi Hj; [done|].
  destruct i as [|i], j as [|j]; simpl in *.
  - injection Hi as ->. by injection Hj as ->.
  - injection Hi as ->. by apply insert_cons_perm.
  - injection Hj as ->. by apply insert_cons_perm.
  - by rewrite IH.
Qed.

Lemma swap_fmap {A B} (f : A → B) (x : list A) (i j : nat) :
  swap (f <$> x) i j = f <$> swap x i j.
Proof.
  unfold swap. rewrite !list_lookup_fmap.
  destruct (x !! i) as [xi|]; [|done]. destruct (x !! j) as [xj|]; [|done].
  simpl. by rewrite !list_fmap_insert.
Qed.

(** ** Facts on the cell *)

Section CellFacts.

Variables prec emax : Z.
Variable np_std : vector → float.
Variable RandomState : Type.
Variable rk_interval : nat → RandomState → nat * RandomState.

(** *** The shuffle permutes, whatever the generator draws *)

Lemma shuffle_loop_perm {A} (i : nat) (x : list A) (st : RandomState) :
  (shuffle_loop rk_interval i x st).1 ≡ₚ x.
Proof.
  revert x st. induction i as [|i IH]; intros x st; [done|].
  cbn [shuffle_loop]. destruct (rk_interval (S i) st) as [j st'].
  rewrite IH. case_decide; [done | apply swap_perm].
Qed.

Lemma shuffle_perm {A} (x : list A) (st : RandomState) :
  (shuffle rk_interval x st).1 ≡ₚ x.
Proof. apply shuffle_loop_perm. Qed.

(** *** The shuffle moves rows, not their contents *)

Lemma shuffle_loop_fmap {A B} (f : A → B) (i : nat) (x : list A) (st : RandomState) :
  shuffle_loop rk_interval i (f <$> x) st =
  (f <$> (shuffle_loop rk_interval i x st).1, (shuffle_loop rk_interval i x st).2).
Proof.
  revert x st. induction i as [|i IH]; intros x st; [done|].
  cbn [shuffle_loop]. destruct (rk_interval (S i) st) as [j st'].
  case_decide; [apply IH|]. rewrite swap_fmap. apply IH.
Qed.

Lemma shuffle_fmap {A B} (f : A → B) (x : list A) (st : RandomState) :
  shuffle rk_interval (f <$> x) st =
  (f <$> (shuffle rk_interval x st).1, (shuffle rk_interval x st).2).
Proof. unfold shuffle. rewrite length_fmap. apply shuffle_loop_fmap. Qed.

(** *** The shuffle reads the generator through its draws only *)

Lemma shuffle_loop_draws {A} (i : nat) (x : list A) (st st' : RandomState) :
  draws rk_interval i st = draws rk_interval i st' →
  (shuffle_loop rk_interval i x st).1 = (shuffle_loop rk_interval i x st').1.
Proof.
  revert x st st'. induction i as [|i IH]; intros x st st' Hd; [done|].
  cbn [shuffle_loop draws] in *.
  destruct (rk_interval (S i) st) as [j st1].
  destruct (rk_interval (S i) st') as [j' st1'].
  injection Hd as -> Hd. by apply IH.
Qed.

(** The rows of a list are the rows at the identifiers [0..n-1] *)
Lemma rows_at_seq {A} `{!Inhabited A} (x : list A) :
  x = (λ i, x !!! i) <$> seq 0 (length x).
Proof.
  apply list_eq. intros i. rewrite list_lookup_fmap.
  destruct (x !! i) as [a|] eqn:Hi.
  - rewrite lookup_seq_lt by (by eapply lookup_lt_Some). simpl.
    by rewrite (list_lookup_total_correct x i a).
  - rewrite lookup_seq_ge by (by apply lookup_ge_None). done.
Qed.

(** The shuffled list is the list read at a shuffle of its identifiers *)
Lemma shuffle_by_identifiers {A} `{!Inhabited A} (x : list A) (st : RandomState) :
  shuffle rk_interval x st =
  ((λ i, x !!! i) <$> (shuffle rk_interval (seq 0 (length x)) st).1,
   (shuffle rk_interval (seq 0 (length x)) st).2).
Proof. rewrite (rows_at_seq x) at 1. apply shuffle_fmap. Qed.

(** *** Cleaning *)

Lemma length_nan_to_zero (spectra : matrix) :
  length (nan_to_zero spectra) = length spectra.
Proof. by rewrite nan_to_zero_map, length_map. Qed.

Lemma length_keep_mask (spectra : matrix) :
  length (keep_mask np_std spectra) = length spectra.
Proof. unfold keep_mask. by rewrite length_map, length_nan_to_zero. Qed.

Lemma clean_select (spectra labels : matrix) :
  length spectra ≤ length labels →
  clean np_std spectra labels =
  Ok (select (keep_mask np_std spectra) (nan_to_zero spectra),
      select (keep_mask np_std spectra) labels).
Proof.
  intros Hlen. unfold clean.
  assert (map (map (λ s, ne s zero)) (reshape_col (map np_std (nan_to_zero spectra)))
          = reshape_col (keep_mask np_std spectra)) as ->.
  { unfold reshape_col, keep_mask. rewrite !map_map. done. }
  rewrite np_where_col.
  rewrite !take_rows_select
    by (rewrite length_keep_mask, ?length_nan_to_zero; lia).
  done.
Qed.

Lemma take_rows_Forall2 {A} (a : list A) (indices : list nat) (a' : list A) :
  take_rows a indices = Ok a' → Forall2 (λ i x, a !! i = Some x) indices a'.
Proof.
  unfold take_rows. revert a'.
  induction indices as [|i indices IH]; intros a' H; cbn in H.
  - injection H as <-. constructor.
  - unfold getitem in H. destruct (a !! i) as [x|] eqn:Hi; [|done]. cbn in H.
    destruct (mapM _ indices) as [xs|] eqn:Hxs; [|done]. cbn in H.
    injection H as <-. constructor; [done | by apply IH].
Qed.

Lemma count_removed (g : vector → bool) (a : matrix) :
  length (filter (λ b, b = false) (map (λ row, negb (g row)) a)) =
  length (filter (λ row, g row = true) a).
Proof.
  induction a as [|row a IH]; [done|]. cbn [map]. rewrite !filter_cons.
  destruct (g row); simpl; by rewrite IH.
Qed.

Lemma fix_nan_not_nan (x : float) : isnan (fix_nan x) = false.
Proof. unfold fix_nan. by destruct x. Qed.

Lemma nan_to_zero_no_nan (spectra : matrix) :
  Forall (Forall (λ x, isnan x = false)) (nan_to_zero spectra).
Proof.
  rewrite nan_to_zero_map. apply Forall_fmap, Forall_true. intros row.
  apply Forall_fmap, Forall_true. intros x. apply fix_nan_not_nan.
Qed.

(** *** The claims on cleaning *)

(** C3 (amended): for every reference set of row-aligned spectra and
    labels, [clean] returns, and what it returns is fixed by its first
    step: the indexed assignment replaces every NaN flux value with 0.0
    and leaves every other flux value as it is, and the returned (spectrum,
    label) pairs are exactly the pairs of such a replaced spectrum with its
    input label whose standard deviation is not zero, in their order.  So
    no flux value of the output is NaN.  The labels are not looked at: a
    label of a kept pair is returned as it came, a NaN label included. *)
Theorem clean_leaves_no_nan (spectra labels : matrix) :
  length spectra = length labels →
  ∃ spectra' labels',
    clean np_std spectra labels = Ok (spectra', labels') ∧
    nan_to_zero spectra = map (map (λ x, if isnan x then zero else x)) spectra ∧
    zip spectra' labels' =
      filter (λ p, SFeqb (np_std p.1) zero = false)
        (zip (map (map (λ x, if isnan x then zero else x)) spectra) labels) ∧
    length spectra' = length labels' ∧
    Forall (Forall (λ x, isnan x = false)) spectra'.
Proof.
  intros Hlen. pose proof (length_nan_to_zero spectra) as Hnan.
  eexists _, _. split; [apply clean_select; lia|].
  split; [apply nan_to_zero_map|]. split; [|split].
  - unfold keep_mask. rewrite select_zip_filter by lia.
    rewrite nan_to_zero_map.
    apply list_filter_iff. intros [row lbl]. unfold ne. simpl.
    by destruct (SFeqb (np_std row) zero).
  - apply select_same_length. lia.
  - apply Forall_select, nan_to_zero_no_nan.
Qed.

(** C4: [clean] keeps exactly the (spectrum, label) pairs whose spectrum,
    after the NaN replacement, has a standard deviation different from
    zero, in their order; the number of pairs it returns is the number of
    input pairs minus the number of spectra of standard deviation zero. *)
Theorem clean_removes_exactly_zero_std (spectra labels : matrix) :
  length spectra = length labels →
  ∃ spectra' labels',
    clean np_std spectra labels = Ok (spectra', labels') ∧
    length spectra' = length labels' ∧
    zip spectra' labels' =
      filter (λ p, SFeqb (np_std p.1) zero = false) (zip (nan_to_zero spectra) labels) ∧
    length spectra' =
      length spectra
      - length (filter (λ row, SFeqb (np_std row) zero = true) (nan_to_zero spectra)).
Proof.
  intros Hlen. eexists _, _. split; [apply clean_select; lia|].
  pose proof (length_nan_to_zero spectra) as Hnan.
  split; [apply select_same_length; lia|]. split.
  - unfold keep_mask. rewrite select_zip_filter by lia.
    apply list_filter_iff. intros [row lbl]. unfold ne. simpl.
    by destruct (SFeqb (np_std row) zero).
  - rewrite length_select by (rewrite length_keep_mask; lia).
    unfold keep_mask, ne. by rewrite count_removed, Hnan.
Qed.

(** C7: the spectra and the labels [clean] returns are the rows of the two
    parallel inputs at one and the same list of indices, so the k-th
    returned spectrum and the k-th returned label were paired in the input;
    the returned pairs are a subsequence of the input pairs, and there are
    no more of them than input pairs. *)
Theorem clean_preserves_pairing (spectra labels : matrix) :
  length spectra = length labels →
  ∃ spectra' labels' indices,
    clean np_std spectra labels = Ok (spectra', labels') ∧
    take_rows (nan_to_zero spectra) indices = Ok spectra' ∧
    take_rows labels indices = Ok labels' ∧
    (∀ k s l, spectra' !! k = Some s → labels' !! k = Some l →
       ∃ i, nan_to_zero spectra !! i = Some s ∧ labels !! i = Some l) ∧
    zip spectra' labels' `sublist_of` zip (nan_to_zero spectra) labels ∧
    length spectra' = length labels' ∧
    length spectra' ≤ length spectra.
Proof.
  intros Hlen. pose proof (length_nan_to_zero spectra) as Hnan.
  pose proof (length_keep_mask spectra) as Hmask.
  assert (take_rows (nan_to_zero spectra) (true_indices 0 (keep_mask np_std spectra))
          = Ok (select (keep_mask np_std spectra) (nan_to_zero spectra))) as Hs
    by (apply take_rows_select; lia).
  assert (take_rows labels (true_indices 0 (keep_mask np_std spectra))
          = Ok (select (keep_mask np_std spectra) labels)) as Hl
    by (apply take_rows_select; lia).
  eexists _, _, _. split; [apply clean_select; lia|].
  split; [exact Hs|]. split; [exact Hl|]. split; [|split; [|split]].
  - intros k s l Hk Hk'.
    apply take_rows_Forall2 in Hs, Hl.
    destruct (Forall2_lookup_r _ _ _ _ _ Hs Hk) as (i & Hi & His).
    destruct (Forall2_lookup_r _ _ _ _ _ Hl Hk') as (i' & Hi' & Hil).
    exists i. split; [done|]. congruence.
  - rewrite <- select_zip. apply select_sublist.
  - apply select_same_length. lia.
  - rewrite <- Hnan. apply sublist_length, select_sublist.
Qed.

(** *** From the files to the cleaned reference set *)

Lemma load_stats_two_rows (mean std : vector) :
  load_stats [mean; std] = Ok (mean, std, length mean).
Proof. done. Qed.

Lemma reference_set_select (mean_and_std : matrix) (F : h5file) :
  wf_input mean_and_std F →
  ∃ labels k,
    length labels = length (spectrum F) ∧
    num_train_of (length (spectrum F)) = Ok k ∧
    reference_set prec emax np_std mean_and_std F =
    Ok (select (keep_mask np_std (spectrum F)) (nan_to_zero (spectrum F)),
        select (keep_mask np_std (spectrum F)) labels,
        Z.to_nat k, shape1 (spectrum F)).
Proof.
  intros [(mean & std & -> & Hmean & Hstd) Ht Hl Hf _ Hsize].
  destruct (column_stack3_same_length (TEFF F) (LOGG F) (FE_H F))
    as (rows & Hrows & Hlen & Hthree); [lia..|].
  destruct (num_train_of_total (length (spectrum F)) Hsize) as [k Hk].
  eexists _, k. split; [|split; [exact Hk|]].
  2:{ unfold reference_set. ok_step load_stats_two_rows. ok_step Hrows.
      unfold normalize.
      ok_step (normalize_with_same_length (SFsub prec emax) (SFdiv prec emax) 3
                 mean std rows Hmean Hstd Hthree).
      rewrite length_map, Hlen, Ht. ok_step Hk.
      rewrite clean_select by (rewrite length_map; lia). done. }
  rewrite length_map. lia.
Qed.

Lemma lookup_total_stacked (Sp Lb : matrix) (num_fluxes i : nat) :
  length Sp = length Lb →
  Forall (λ row, length row = num_fluxes) Sp →
  i < length Sp →
  take num_fluxes (zip_with app Sp Lb !!! i) = Sp !!! i
  ∧ drop num_fluxes (zip_with app Sp Lb !!! i) = Lb !!! i.
Proof.
  intros Hlen Hrect Hi.
  destruct (lookup_lt_is_Some_2 Sp i Hi) as [s Hs].
  destruct (lookup_lt_is_Some_2 Lb i ltac:(lia)) as [l Hl].
  assert (zip_with app Sp Lb !! i = Some (s ++ l)) as Hsl
    by (rewrite lookup_zip_with, Hs; simpl; by rewrite Hl).
  rewrite (list_lookup_total_correct _ _ _ Hsl),
    (list_lookup_total_correct _ _ _ Hs), (list_lookup_total_correct _ _ _ Hl).
  pose proof (Forall_lookup_1 _ _ _ _ Hrect Hs) as Hrow. simpl in Hrow.
  subst num_fluxes. by rewrite take_app_length, drop_app_length.
Qed.

Lemma rect_select_nan_to_zero (spectra : matrix) (keep : list bool) :
  Forall (λ row, length row = shape1 spectra) spectra →
  Forall (λ row, length row = shape1 spectra) (select keep (nan_to_zero spectra)).
Proof.
  intros H. apply Forall_select. rewrite nan_to_zero_map.
  apply Forall_fmap. eapply Forall_impl; [exact H|].
  intros row Hrow. simpl. by rewrite length_map.
Qed.

(** The cell on well-shaped input: the four arrays are the rows of the
    cleaned reference set at a shuffle [p] of their identifiers, the
    first [num_train] of [p] for training and the others for
    cross-validation. *)
Lemma cell_by_identifiers (mean_and_std : matrix) (F : h5file) (st : RandomState) :
  wf_input mean_and_std F →
  ∃ Sp Lb k,
    num_train_of (length (spectrum F)) = Ok k ∧
    reference_set prec emax np_std mean_and_std F =
      Ok (Sp, Lb, Z.to_nat k, shape1 (spectrum F)) ∧
    length Sp = length Lb ∧
    length Sp ≤ length (spectrum F) ∧
    let p := (shuffle rk_interval (seq 0 (length Sp)) st).1 in
    cell prec emax np_std rk_interval mean_and_std F st =
    (Ok {| train_spectra := reshape_channels ((λ i, Sp !!! i) <$> take (Z.to_nat k) p);
           train_labels := (λ i, Lb !!! i) <$> take (Z.to_nat k) p;
           cv_spectra := reshape_channels ((λ i, Sp !!! i) <$> drop (Z.to_nat k) p);
           cv_labels := (λ i, Lb !!! i) <$> drop (Z.to_nat k) p |},
     (shuffle rk_interval (seq 0 (length Sp)) st).2).
Proof.
  intros Hwf.
  destruct (reference_set_select mean_and_std F Hwf) as (labels & k & Hlab & Hk & Href).
  pose proof (wf_rect _ _ Hwf) as Hrect.
  set (Sp := select (keep_mask np_std (spectrum F)) (nan_to_zero (spectrum F))) in *.
  set (Lb := select (keep_mask np_std (spectrum F)) labels) in *.
  assert (length Sp = length Lb) as HSpLb
    by (apply select_same_length; rewrite length_nan_to_zero; lia).
  assert (length Sp ≤ length (spectrum F)) as HSle
    by (rewrite <- (length_nan_to_zero (spectrum F)); apply sublist_length, select_sublist).
  assert (Forall (λ row, length row = shape1 (spectrum F)) Sp) as HrectS
    by (by apply rect_select_nan_to_zero).
  exists Sp, Lb, k. split; [done|]. split; [done|]. split; [done|]. split; [done|].
  intros p. unfold cell, reference. ok_step Href.
  unfold column_stack. rewrite decide_True by done.
  rewrite result_bind_ok. cbv beta iota. unfold mret, result_ret.
  rewrite shuffle_by_identifiers.
  rewrite length_zip_with, <- HSpLb, Nat.min_id. fold p.
  assert (Forall (λ i, i < length Sp) p) as Hp.
  { unfold p. rewrite shuffle_perm. apply Forall_forall. intros i Hi.
    apply elem_of_seq in Hi. lia. }
  assert (∀ q, Forall (λ i, i < length Sp) q →
    (map (take (shape1 (spectrum F))) ((λ i, zip_with app Sp Lb !!! i) <$> q)
       = (λ i, Sp !!! i) <$> q)
    ∧ (map (drop (shape1 (spectrum F))) ((λ i, zip_with app Sp Lb !!! i) <$> q)
       = (λ i, Lb !!! i) <$> q)) as Hq.
  { intros q Hqlt. split.
    - change map with (@fmap list _). rewrite <- list_fmap_compose.
      apply Forall_fmap_ext. eapply Forall_impl; [exact Hqlt|].
      intros i Hi. simpl. by apply lookup_total_stacked.
    - change map with (@fmap list _). rewrite <- list_fmap_compose.
      apply Forall_fmap_ext. eapply Forall_impl; [exact Hqlt|].
      intros i Hi. simpl. by apply lookup_total_stacked. }
  unfold slices. rewrite <- !fmap_take, <- !fmap_drop.
  destruct (Hq (take (Z.to_nat k) p) (Forall_take _ _ _ Hp)) as [-> ->].
  destruct (Hq (drop (Z.to_nat k) p) (Forall_drop _ _ _ Hp)) as [-> ->].
  done.
Qed.

Lemma shuffle_loop_advance {A} (i : nat) (x : list A) (st : RandomState) :
  (shuffle_loop rk_interval i x st).2 = advance rk_interval i st.
Proof.
  revert x st. induction i as [|i IH]; intros x st; [done|].
  cbn [shuffle_loop advance]. destruct (rk_interval (S i) st) as [j st'].
  apply IH.
Qed.

Lemma zip_fmap_same {A B C} (f : C → A) (g : C → B) (q : list C) :
  zip (f <$> q) (g <$> q) = (λ i, (f i, g i)) <$> q.
Proof. induction q as [|i q IH]; [done|]. cbn. by f_equal. Qed.

Lemma zip_rows_at_seq {A B} `{!Inhabited A, !Inhabited B} (a : list A) (b : list B) :
  length a = length b →
  zip a b = (λ i, (a !!! i, b !!! i)) <$> seq 0 (length a).
Proof.
  intros Hlen. rewrite (rows_at_seq a) at 1. rewrite (rows_at_seq b) at 1.
  rewrite <- Hlen. apply zip_fmap_same.
Qed.

Lemma lookup_rows_at {A} `{!Inhabited A} (a : list A) (q : list nat) (k : nat) (x : A) :
  Forall (λ i, i < length a) q →
  ((λ i, a !!! i) <$> q) !! k = Some x →
  ∃ i, q !! k = Some i ∧ a !! i = Some x.
Proof.
  intros Hq Hk. rewrite list_lookup_fmap in Hk.
  destruct (q !! k) as [i|] eqn:Hi; [|done]. simpl in Hk. injection Hk as <-.
  exists i. split; [done|].
  apply list_lookup_lookup_total_lt.
  exact (Forall_lookup_1 _ _ _ _ Hq Hi).
Qed.

Lemma shuffled_identifiers (n : nat) (st : RandomState) :
  (shuffle rk_interval (seq 0 n) st).1 ≡ₚ seq 0 n.
Proof. apply shuffle_perm. Qed.

(** *** The split *)

(** On well-shaped input the cell shuffles the identifiers [0..N-1] of the
    N cleaned rows (spectra [Sp], labels [Lb]) into a permutation [p];
    Train is the cleaned rows at the first [num_train] identifiers of [p]
    and CrossValidation the cleaned rows at the remaining ones, so no
    identifier is in both and every identifier is in one of them.
    [num_train] is [int(0.9*len(labels))] of the rows of the file, taken
    before the cleaning: Train has [min(num_train, N)] rows and
    CrossValidation the other [N - num_train]. *)
Theorem split_partitions_cleaned_set
    (mean_and_std : matrix) (F : h5file) (st : RandomState) :
  wf_input mean_and_std F →
  ∃ Sp Lb num_train num_fluxes p out st',
    reference_set prec emax np_std mean_and_std F = Ok (Sp, Lb, num_train, num_fluxes) ∧
    cell prec emax np_std rk_interval mean_and_std F st = (Ok out, st') ∧
    p ≡ₚ seq 0 (length Sp) ∧
    train_spectra out = reshape_channels ((λ i, Sp !!! i) <$> take num_train p) ∧
    train_labels out = (λ i, Lb !!! i) <$> take num_train p ∧
    cv_spectra out = reshape_channels ((λ i, Sp !!! i) <$> drop num_train p) ∧
    cv_labels out = (λ i, Lb !!! i) <$> drop num_train p ∧
    (∀ i, i ∈ take num_train p → i ∉ drop num_train p) ∧
    (∀ i, i < length Sp ↔ i ∈ take num_train p ∨ i ∈ drop num_train p) ∧
    num_train_of (length (spectrum F)) = Ok (Z.of_nat num_train) ∧
    length (train_spectra out) = num_train `min` length Sp ∧
    length (cv_spectra out) = length Sp - num_train.
Proof.
  intros Hwf.
  destruct (cell_by_identifiers mean_and_std F st Hwf)
    as (Sp & Lb & k & Hk & Href & HSpLb & HSle & Hcell).
  set (p := (shuffle rk_interval (seq 0 (length Sp)) st).1) in *.
  pose proof (shuffled_identifiers (length Sp) st) as Hp. fold p in Hp.
  assert (length p = length Sp) as Hlp
    by (by rewrite Hp, length_seq).
  assert (NoDup (take (Z.to_nat k) p ++ drop (Z.to_nat k) p)) as Hnd
    by (rewrite take_drop, Hp; apply NoDup_seq).
  eexists Sp, Lb, _, _, p, _, _. split; [exact Href|]. split; [exact Hcell|].
  split; [exact Hp|]. cbn [train_spectra train_labels cv_spectra cv_labels].
  do 4 (split; [done|]).
  pose proof (num_train_of_le _ _ Hk) as Hle.
  split; [|split; [|split]].
  - apply NoDup_app in Hnd. apply Hnd.
  - intros i. rewrite <- elem_of_app, take_drop, Hp, elem_of_seq. lia.
  - rewrite Z2Nat.id by lia. exact Hk.
  - unfold reshape_channels.
    rewrite !length_map, ?length_fmap, length_take, length_drop, Hlp. lia.
Qed.

(** C10: on well-shaped input every row of Train and of CrossValidation is
    a row of the cleaned reference set (spectra [Sp], labels [Lb]) with its
    own label: the k-th spectrum and the k-th label vector of either set
    are the spectrum and the label of one and the same cleaned row, and the
    (spectrum, label) pairs of the two sets together are the cleaned pairs,
    each once. *)
Theorem shuffle_keeps_rows_together
    (mean_and_std : matrix) (F : h5file) (st : RandomState) :
  wf_input mean_and_std F →
  ∃ Sp Lb num_train num_fluxes out st' ts cs,
    reference_set prec emax np_std mean_and_std F = Ok (Sp, Lb, num_train, num_fluxes) ∧
    cell prec emax np_std rk_interval mean_and_std F st = (Ok out, st') ∧
    train_spectra out = reshape_channels ts ∧
    cv_spectra out = reshape_channels cs ∧
    length ts = length (train_labels out) ∧
    length cs = length (cv_labels out) ∧
    (∀ k s l, ts !! k = Some s → train_labels out !! k = Some l →
       ∃ i, Sp !! i = Some s ∧ Lb !! i = Some l) ∧
    (∀ k s l, cs !! k = Some s → cv_labels out !! k = Some l →
       ∃ i, Sp !! i = Some s ∧ Lb !! i = Some l) ∧
    zip ts (train_labels out) ++ zip cs (cv_labels out) ≡ₚ zip Sp Lb.
Proof.
  intros Hwf.
  destruct (cell_by_identifiers mean_and_std F st Hwf)
    as (Sp & Lb & k & Hk & Href & HSpLb & HSle & Hcell).
  set (p := (shuffle rk_interval (seq 0 (length Sp)) st).1) in *.
  pose proof (shuffled_identifiers (length Sp) st) as Hp. fold p in Hp.
  assert (Forall (λ i, i < length Sp) p) as Hlt.
  { rewrite Hp. apply Forall_forall. intros i Hi. apply elem_of_seq in Hi. lia. }
  assert (∀ q k s l, Forall (λ i, i < length Sp) q →
            ((λ i, Sp !!! i) <$> q) !! k = Some s →
            ((λ i, Lb !!! i) <$> q) !! k = Some l →
            ∃ i, Sp !! i = Some s ∧ Lb !! i = Some l) as Hpair.
  { intros q j s l Hq Hs Hl.
    destruct (lookup_rows_at Sp q j s Hq Hs) as (i & Hi & His).
    destruct (lookup_rows_at Lb q j l) as (i' & Hi' & Hil);
      [by rewrite <- HSpLb | done |].
    exists i. split; [done|]. congruence. }
  eexists Sp, Lb, _, _, _, _, _, _. split; [exact Href|]. split; [exact Hcell|].
  cbn [train_spectra train_labels cv_spectra cv_labels].
  do 2 (split; [reflexivity|]).
  split; [by rewrite !length_fmap|]. split; [by rewrite !length_fmap|].
  split; [|split].
  - intros j s l. apply Hpair. by apply Forall_take.
  - intros j s l. apply Hpair. by apply Forall_drop.
  - rewrite !zip_fmap_same, <- fmap_app, take_drop, Hp.
    by rewrite zip_rows_at_seq.
Qed.

(** C5 (amended): the cell takes no seed and no generator; it reads the
    state of the global generator through [num_draws] bounded draws and
    leaves it advanced by them.  Two runs on the same input from states
    that yield the same draws return the same result, Train and
    CrossValidation included. *)
Theorem split_determined_by_draws
    (mean_and_std : matrix) (F : h5file) (st st' : RandomState) :
  draws rk_interval (num_draws prec emax np_std mean_and_std F) st =
  draws rk_interval (num_draws prec emax np_std mean_and_std F) st' →
  (cell prec emax np_std rk_interval mean_and_std F st).1 =
  (cell prec emax np_std rk_interval mean_and_std F st').1
  ∧ (cell prec emax np_std rk_interval mean_and_std F st).2 =
    advance rk_interval (num_draws prec emax np_std mean_and_std F) st.
Proof.
  unfold cell, num_draws.
  destruct (reference prec emax np_std mean_and_std F)
    as [[[reference_data num_train] num_fluxes]|e]; [|done].
  intros Hd. unfold shuffle.
  pose proof (shuffle_loop_draws (length reference_data - 1) reference_data st st' Hd)
    as Heq.
  pose proof (shuffle_loop_advance (length reference_data - 1) reference_data st)
    as Hadv.
  destruct (shuffle_loop rk_interval _ reference_data st) as [x1 st1].
  destruct (shuffle_loop rk_interval _ reference_data st') as [x2 st2].
  simpl in *. by subst.
Qed.

(** *** The claims on the label statistics *)


Lemma eqb_zero_inv (s : float) :
  SFeqb s zero = true → ∃ b, s = S754_zero b.
Proof. destruct s as [b|b| |b m e]; try done; [by eexists | by destruct b..]. Qed.

Lemma div_by_zero_not_finite (x s : float) :
  SFeqb s zero = true → is_finite (SFdiv prec emax x s) = false.
Proof. intros [b ->]%eqb_zero_inv. by destruct x. Qed.

(** C6 (amended): [normalize] never refuses a standard deviation of zero.
    For statistics and label vectors of one length D it returns, and in a
    dimension whose standard deviation is zero every normalized label is
    the quotient by zero, an infinity or NaN; the removal of zero-variance
    spectra by [clean] returns as well. *)
Theorem normalize_divides_by_zero_std (mean_labels std_labels : vector)
    (lb : matrix) (D : nat) :
  length mean_labels = D → length std_labels = D →
  Forall (λ row, length row = D) lb →
  (∃ out,
     normalize prec emax mean_labels std_labels lb = Ok out ∧
     length out = length lb ∧
     ∀ i j row s x,
       out !! i = Some row → std_labels !! j = Some s → SFeqb s zero = true →
       row !! j = Some x → is_finite x = false)
  ∧ ∀ spectra labels,
      length spectra = length labels → ∃ cleaned, clean np_std spectra labels = Ok cleaned.
Proof.
  intros Hm Hs Hlb. split.
  - eexists. split; [by apply (normalize_with_same_length _ _ D)|].
    split; [by rewrite length_map|].
    intros i j row s x Hrow Hsj Hzero Hx.
    rewrite list_lookup_fmap in Hrow.
    destruct (lb !! i) as [r|]; [|done]. simpl in Hrow. injection Hrow as <-.
    apply lookup_zip_with_Some in Hx as (y & s' & -> & _ & Hs').
    assert (s' = s) as -> by congruence.
    by apply div_by_zero_not_finite.
  - intros spectra labels Hlen. eexists. apply clean_select. lia.
Qed.

End CellFacts.

(** ** The round trip through the normalisation *)

Lemma invert_row_exact (mean std row : list Q) :
  length mean = length row → length std = length row →
  Forall (λ s, ¬ (s == 0)%Q) std →
  Forall2 Qeq
    (zip_with Qplus (zip_with Qmult (zip_with Qdiv (zip_with Qminus row mean) std) std) mean)
    row.
Proof.
  revert mean std. induction row as [|x row IH]; intros mean std Hm Hs Hnz.
  - destruct mean; [constructor | done].
  - destruct mean as [|m mean]; [done|]. destruct std as [|s std]; [done|].
    apply Forall_cons in Hnz as [Hsz Hnz]. simpl in Hm, Hs. cbn [zip_with].
    constructor.
    + field. exact Hsz.
    + apply IH; [lia | lia | done].
Qed.

(** Over exact arithmetic (the rationals) the inverse [x*std + mean]
    applied to the normalized labels [(x - mean)/std] gives back every
    label of every label vector, whenever mean, std and the label vectors
    have one length and no standard deviation is zero. *)
Theorem invert_normalize_exact (mean std : list Q) (lb : list (list Q)) (D : nat) :
  length mean = D → length std = D →
  Forall (λ row, length row = D) lb →
  Forall (λ s, ¬ (s == 0)%Q) std →
  ∃ normalized,
    normalize_with Qminus Qdiv mean std lb = Ok normalized ∧
    Forall2 (Forall2 Qeq) (invert_with Qmult Qplus mean std normalized) lb.
Proof.
  intros Hm Hs Hlb Hnz. eexists.
  split; [by apply (normalize_with_same_length _ _ D)|].
  unfold invert_with. rewrite map_map.
  induction Hlb as [|row lb Hrow _ IH]; [constructor|].
  cbn [map]. constructor; [|exact IH].
  apply invert_row_exact; [lia | lia | done].
Qed.

(** ** The rounding error of the binary64 operations

    What [binary_round_aux] returns is within one part in 2^52 of the
    value it rounds, unless the result falls into the subnormal range;
    from there, the same for the product, the quotient, the sum and the
    difference, and for the four of them composed in the round trip of a
    label. *)

Section RoundingError.

Local Open Scope Z_scope.

Lemma Zdigits2_upper (m : Z) : 0 ≤ m → m < 2 ^ Zdigits2 m.
Proof.
  intros Hm. destruct m as [|p|p]; [done| |lia]. simpl Zdigits2.
  rewrite digits2_pos_size.
  pose proof (Z.log2_spec (Zpos p) ltac:(lia)) as [_ Hlog].
  replace (Zpos (Pos.size p)) with (Z.succ (Z.log2 (Zpos p))); [done|].
  destruct p; simpl; lia.
Qed.

Lemma shr_1_floor (mrs : shr_record) :
  0 ≤ shr_m mrs →
  0 ≤ shr_m (shr_1 mrs) ∧ 2 * shr_m (shr_1 mrs) ≤ shr_m mrs < 2 * shr_m (shr_1 mrs) + 2.
Proof.
  destruct mrs as [m r s]. simpl.
  destruct m as [|[p|p|]|[p|p|]]; simpl; lia.
Qed.

Lemma iter_shr_1_floor (p : positive) (mrs : shr_record) :
  0 ≤ shr_m mrs →
  0 ≤ shr_m (SpecFloat.iter_pos shr_1 p mrs)
  ∧ shr_m (SpecFloat.iter_pos shr_1 p mrs) * 2 ^ Zpos p ≤ shr_m mrs
    < (shr_m (SpecFloat.iter_pos shr_1 p mrs) + 1) * 2 ^ Zpos p.
Proof.
  revert mrs. induction p as [p IH|p IH|]; intros mrs Hm; simpl SpecFloat.iter_pos.
  - destruct (shr_1_floor mrs Hm) as [H1 H1'].
    destruct (IH _ H1) as [H2 H2']. destruct (IH _ H2) as [H3 H3'].
    split; [done|].
    replace (Z.pos p~1) with (Z.pos p + Z.pos p + 1) by lia.
    rewrite !Z.pow_add_r by lia.
    change (2 ^ 1) with 2. set (P := 2 ^ Z.pos p) in *.
    assert (0 < P) by (apply Z.pow_pos_nonneg; lia). nia.
  - destruct (IH _ Hm) as [H2 H2']. destruct (IH _ H2) as [H3 H3'].
    split; [done|].
    replace (Z.pos p~0) with (Z.pos p + Z.pos p) by lia.
    rewrite Z.pow_add_r by lia.
    set (P := 2 ^ Z.pos p) in *.
    assert (0 < P) by (apply Z.pow_pos_nonneg; lia). nia.
  - destruct (shr_1_floor mrs Hm). change (2 ^ 1) with 2. lia.
Qed.

(** One shift of [shr_fexp]: the mantissa is the floor of the quotient by
    the power of two of the shift *)
Lemma shr_fexp_floor (m e : Z) (l : location) :
  0 ≤ m →
  let '(mrs, e') := shr_fexp 53 1024 m e l in
  0 ≤ shr_m mrs
  ∧ shr_m mrs * 2 ^ (e' - e) ≤ m < (shr_m mrs + 1) * 2 ^ (e' - e)
  ∧ ((e' = e ∧ mrs = shr_record_of_loc m l ∧ fexp 53 1024 (Zdigits2 m + e) ≤ e)
     ∨ (e < e' ∧ e' = fexp 53 1024 (Zdigits2 m + e))).
Proof.
  intros Hm. unfold shr_fexp, shr.
  assert (shr_m (shr_record_of_loc m l) = m) as Hrec by (by destruct l as [|[]]).
  destruct (fexp 53 1024 (Zdigits2 m + e) - e) as [|p|p] eqn:Hn.
  - rewrite Hrec, Z.sub_diag. simpl. split; [done|]. split; [lia|].
    left. split; [done|]. split; [done|]. lia.
  - destruct (iter_shr_1_floor p (shr_record_of_loc m l) ltac:(lia)) as [H1 H2].
    rewrite Hrec in H2. split; [done|].
    replace (e + Z.pos p - e) with (Z.pos p) by lia. split; [done|].
    right. lia.
  - rewrite Hrec, Z.sub_diag. simpl. split; [done|]. split; [lia|].
    left. split; [done|]. split; [done|]. lia.
Qed.

Lemma loc_of_shr_record_of_loc (m : Z) (l : location) :
  loc_of_shr_record (shr_record_of_loc m l) = l.
Proof. by destruct l as [|[]]. Qed.

Lemma round_nearest_even_range (m : Z) (l : location) :
  m ≤ round_nearest_even m l ≤ m + 1.
Proof.
  unfold round_nearest_even.
  destruct l as [|[]]; [lia| |lia|lia]. destruct (Z.even m); lia.
Qed.

(** The second shift of [binary_round_aux] only renormalises a carry: it
    loses nothing *)
Lemma shr_fexp_carry (r e : Z) :
  0 ≤ r ≤ 2 ^ 53 → -1074 ≤ e →
  let '(mrs, e') := shr_fexp 53 1024 r e loc_Exact in
  e ≤ e' ∧ shr_m mrs * 2 ^ (e' - e) = r ∧ (r < 2 ^ 53 → e' = e).
Proof.
  intros Hr He.
  pose proof (shr_fexp_floor r e loc_Exact ltac:(lia)) as H.
  destruct (shr_fexp 53 1024 r e loc_Exact) as [mrs e'].
  destruct H as (Hm & Hfl & [(-> & -> & _)|[Hlt ->]]).
  - rewrite Z.sub_diag. simpl. split; [lia|]. split; [lia|done].
  - assert (Zdigits2 r ≤ 54) as Hd54 by (apply Zdigits2_le; lia).
    unfold fexp, emin in *.
    assert (Zdigits2 r = 54) as Hd by lia.
    destruct (Z.eq_dec r 0) as [->|Hr0]; [simpl in Hd; lia|].
    pose proof (Zdigits2_lower r ltac:(lia)) as Hlow. rewrite Hd in Hlow.
    change (2 ^ (54 - 1)) with (2 ^ 53) in Hlow.
    assert (r = 2 ^ 53) as -> by lia.
    rewrite Hd in *.
    replace (Z.max (54 + e - 53) (3 - 1024 - 53) - e) with 1 in * by lia.
    change (2 ^ 1) with 2 in Hfl.
    split; [lia|]. split; [|lia].
    change (2 ^ 1) with 2. change (2 ^ 53) with (2 * 2 ^ 52) in *. lia.
Qed.

(** The rounding of [binary_round_aux], relative to the value [N / Dn]
    that the mantissa [mx] and the location stand for: the result is
    within one part in 2^52 of it, unless it falls into the subnormal
    range *)
Lemma binary_round_aux_error (sx : bool) (mx ex : Z) (l : location) (N Dn : Z)
    (s : bool) (m : positive) (e : Z) :
  0 < mx → 0 < Dn → mx * Dn ≤ N < (mx + 1) * Dn →
  (l = loc_Exact ∧ N = mx * Dn) ∨ 53 ≤ Zdigits2 mx ∨ (ex ≤ -1074 ∧ -1074 < e) →
  -1074 < e ∨ -1074 ≤ ex →
  binary_round_aux 53 1024 sx mx ex l = S754_finite s m e →
  s = sx ∧ ex ≤ e
  ∧ N * (2 ^ 52 - 1) ≤ Zpos m * 2 ^ (e - ex) * Dn * 2 ^ 52 ≤ N * (2 ^ 52 + 1).
Proof.
  intros Hmx HDn HN Hloc Hsub. unfold binary_round_aux.
  pose proof (shr_fexp_floor mx ex l ltac:(lia)) as H1.
  destruct (shr_fexp 53 1024 mx ex l) as [mrs' e'].
  destruct H1 as (Hm1 & Hfl1 & Hc1).
  pose proof (round_nearest_even_range (shr_m mrs') (loc_of_shr_record mrs')) as Hr.
  set (r := round_nearest_even _ _) in *.
  pose proof (Zdigits2_lower mx Hmx) as Hdlow.
  pose proof (Zdigits2_upper mx ltac:(lia)) as Hdup.
  set (d := Zdigits2 mx) in *.
  assert (1 ≤ d) as Hd1 by (destruct mx; simpl in *; lia).
  set (m1 := shr_m mrs') in *.
  set (P := 2 ^ (e' - ex)) in *.
  (* the three situations: exact, at least 2^52, or subnormal *)
  assert (-1074 ≤ e' ∧ ex ≤ e' ∧ 0 < P ∧ r ≤ 2 ^ 53
          ∧ ((r = mx ∧ N = mx * Dn ∧ e' = ex)
             ∨ 2 ^ 52 ≤ m1
             ∨ (r < 2 ^ 53 ∧ e' = -1074 ∧ (ex < -1074 ∨ -1074 < e)))) as Hsit.
  { unfold fexp, emin in Hc1.
    destruct Hc1 as [(-> & -> & Hfexp)|[Hlt He']].
    - (* no shift *)
      assert (d ≤ 53 ∧ -1074 ≤ ex) as [Hd53 Hex] by lia.
      subst P. rewrite Z.sub_diag in *. change (2 ^ 0) with 1 in *.
      assert (m1 = mx) as Hm1' by (subst m1; by destruct l as [|[]]).
      assert (2 ^ d ≤ 2 ^ 53) as Hpow by (apply Z.pow_le_mono_r; lia).
      split; [done|]. split; [lia|]. split; [lia|]. split; [lia|].
      destruct (Z.le_gt_cases 53 d) as [Hge|Hlt].
      + right. left. replace d with 53 in * by lia.
        change (2 ^ (53 - 1)) with (2 ^ 52) in Hdlow. lia.
      + destruct Hloc as [[-> HNeq]|[Hge|[Hex' He]]]; [|lia|].
        * left. subst r m1. rewrite loc_of_shr_record_of_loc. simpl. lia.
        * right. right.
          assert (2 ^ d ≤ 2 ^ 52) by (apply Z.pow_le_mono_r; lia).
          assert (2 ^ 52 < 2 ^ 53) by done.
          split; [lia|]. split; [lia|]. right. done.
    - (* a shift *)
      assert (0 < P) as HP by (apply Z.pow_pos_nonneg; lia).
      split; [lia|]. split; [lia|]. split; [done|].
      destruct (Z.le_gt_cases (-1074) (d + ex - 53)) as [Hnorm|Hsubn].
      + (* the normal range *)
        assert (P = 2 ^ (d - 53)) as HPd by (subst P; f_equal; lia).
        assert (53 < d) by lia.
        assert (2 ^ (d - 1) = 2 ^ 52 * P) as Hlo
          by (rewrite HPd, <- Z.pow_add_r by lia; f_equal; lia).
        assert (2 ^ d = 2 ^ 53 * P) as Hhi
          by (rewrite HPd, <- Z.pow_add_r by lia; f_equal; lia).
        assert (2 ^ 52 ≤ m1 < 2 ^ 53) by nia.
        split; [lia|]. right. left. lia.
      + (* the subnormal range *)
        assert (2 ^ d ≤ 2 ^ 52 * P) as Hhi.
        { subst P. rewrite <- Z.pow_add_r by lia.
          apply Z.pow_le_mono_r; lia. }
        assert (m1 < 2 ^ 52) by nia.
        assert (2 ^ 52 < 2 ^ 53) by done.
        split; [lia|]. right. right.
        split; [lia|]. split; [lia|]. left. lia. }
  destruct Hsit as (He' & Hexe' & HP & Hr53 & Hsit).
  pose proof (shr_fexp_carry r e' ltac:(lia) He') as H2.
  destruct (shr_fexp 53 1024 r e' loc_Exact) as [mrs'' e''].
  destruct H2 as (He'' & Hcarry & Hsame).
  destruct (shr_m mrs'') as [|m0|m0] eqn:Hm0; [done| |done].
  destruct (e'' <=? 1024 - 53); [|done].
  intros [= <- <- <-].
  split; [done|]. split; [lia|].
  replace (e'' - ex) with ((e'' - e') + (e' - ex)) by lia.
  rewrite Z.pow_add_r by lia. fold P.
  set (P2 := 2 ^ (e'' - e')) in *.
  assert (Zpos m0 * (P2 * P) * Dn * 2 ^ 52 = r * P * Dn * 2 ^ 52) as -> by nia.
  destruct Hsit as [(-> & -> & ->)|[Hbig|(Hlt & -> & Hcontra)]].
  - subst P. rewrite Z.sub_diag. change (2 ^ 0) with 1. lia.
  - assert (m1 * P * Dn ≤ N < (m1 + 1) * P * Dn) by nia.
    assert (m1 * P * Dn ≤ r * P * Dn ≤ (m1 + 1) * P * Dn) by nia.
    assert (2 ^ 52 * (P * Dn) ≤ N) by nia.
    lia.
  - specialize (Hsame Hlt). lia.
Qed.

(** With an exact location and an exponent of the format, the rounding
    never returns a zero *)
Lemma binary_round_aux_not_zero (sx : bool) (mx ex : Z) (l : location) (s : bool) :
  0 < mx → -1074 ≤ ex →
  binary_round_aux 53 1024 sx mx ex l ≠ S754_zero s.
Proof.
  intros Hmx Hex. unfold binary_round_aux.
  pose proof (shr_fexp_floor mx ex l ltac:(lia)) as H1.
  destruct (shr_fexp 53 1024 mx ex l) as [mrs' e'].
  destruct H1 as (Hm1 & Hfl1 & Hc1).
  pose proof (round_nearest_even_range (shr_m mrs') (loc_of_shr_record mrs')) as Hr.
  set (r := round_nearest_even _ _) in *.
  pose proof (Zdigits2_lower mx Hmx) as Hdlow.
  set (d := Zdigits2 mx) in *.
  assert (0 < r ∧ -1074 ≤ e') as [Hrpos He'].
  { unfold fexp, emin in Hc1.
    destruct Hc1 as [(-> & -> & Hfexp)|[Hlt He']].
    - rewrite Z.sub_diag in Hfl1. change (2 ^ 0) with 1 in Hfl1. lia.
    - assert (e' - ex = d - 53) as Hn by lia. rewrite Hn in Hfl1.
      assert (53 < d) by lia.
      assert (2 ^ (d - 1) = 2 ^ 52 * 2 ^ (d - 53)) as Hlo
        by (rewrite <- Z.pow_add_r by lia; f_equal; lia).
      assert (0 < 2 ^ (d - 53)) by (apply Z.pow_pos_nonneg; lia).
      split; [nia | lia]. }
  pose proof (shr_fexp_floor r e' loc_Exact ltac:(lia)) as H2.
  destruct (shr_fexp 53 1024 r e' loc_Exact) as [mrs'' e''].
  destruct H2 as (Hm2 & Hfl2 & Hc2).
  destruct (shr_m mrs'') as [|m0|m0] eqn:Hm0; [|by destruct (_ <=? _)|done].
  exfalso. unfold fexp, emin in Hc2.
  pose proof (Zdigits2_lower r Hrpos) as Hrlow.
  destruct Hc2 as [(-> & _ & _)|[Hlt He'']].
  - rewrite Z.sub_diag in Hfl2. change (2 ^ 0) with 1 in Hfl2. lia.
  - assert (e'' - e' = Zdigits2 r - 53) as Hn by lia. rewrite Hn in Hfl2.
    assert (2 ^ (Zdigits2 r - 53) ≤ 2 ^ (Zdigits2 r - 1))
      by (apply Z.pow_le_mono_r; lia).
    lia.
Qed.

Lemma shl_align_value (mx : positive) (ex ez : Z) :
  let '(mz, e) := shl_align mx ex ez in
  e = Z.min ex ez ∧ Zpos mz = Zpos mx * 2 ^ (ex - e).
Proof.
  unfold shl_align. destruct (ez - ex) as [|d|d] eqn:Hd.
  - split; [lia|]. replace (ex - ex) with 0 by lia. simpl. lia.
  - split; [lia|]. replace (ex - ex) with 0 by lia. simpl. lia.
  - split; [lia|]. rewrite Pos_iter_xO. f_equal. f_equal. lia.
Qed.

(** [binary_round] of a positive mantissa at an exponent of the format:
    not a zero, and within one part in 2^52 when finite *)
Lemma binary_round_error (sx : bool) (p : positive) (ez : Z) :
  -1074 ≤ ez →
  match binary_round 53 1024 sx p ez with
  | S754_finite s m e =>
      s = sx ∧ ∃ c, 0 ≤ c ∧ ez - c ≤ e
        ∧ Zpos p * 2 ^ c * (2 ^ 52 - 1) ≤ Zpos m * 2 ^ (e - (ez - c)) * 2 ^ 52
          ≤ Zpos p * 2 ^ c * (2 ^ 52 + 1)
  | S754_zero _ => False
  | _ => True
  end.
Proof.
  intros Hez. unfold binary_round.
  pose proof (shl_align_value p ez (fexp 53 1024 (Zpos (digits2_pos p) + ez))) as Hal.
  destruct (shl_align p ez _) as [mz e2]. destruct Hal as [He2 Hmz].
  assert (-1074 ≤ e2) as He2' by (unfold fexp, emin in He2; lia).
  destruct (binary_round_aux 53 1024 sx (Zpos mz) e2 loc_Exact) as [s0| | |s m e] eqn:Hres;
    [|done|done|].
  - by apply binary_round_aux_not_zero in Hres.
  - destruct (binary_round_aux_error sx (Zpos mz) e2 loc_Exact (Zpos mz) 1 s m e)
      as (-> & Hle & Hb); [lia | lia | lia | left; split; [done|lia] | right; lia | done |].
    split; [done|]. exists (ez - e2).
    replace (ez - (ez - e2)) with e2 by lia.
    split; [lia|]. split; [lia|]. rewrite <- Hmz. lia.
Qed.

(** The quotient of [SFdiv_core_binary] *)
Lemma SFdiv_core_binary_spec (m1 m2 : positive) (e1 e2 : Z) :
  let '(q, e', l) := SFdiv_core_binary 53 1024 (Zpos m1) e1 (Zpos m2) e2 in
  e' ≤ e1 - e2
  ∧ q * Zpos m2 ≤ Zpos m1 * 2 ^ (e1 - e2 - e') < (q + 1) * Zpos m2
  ∧ 0 ≤ q
  ∧ (2 ^ 52 ≤ q ∨ e' ≤ -1074).
Proof.
  unfold SFdiv_core_binary.
  set (d1 := Zdigits2 (Zpos m1)). set (d2 := Zdigits2 (Zpos m2)).
  set (e' := Z.min (fexp 53 1024 (d1 + e1 - (d2 + e2))) (e1 - e2)).
  set (s := e1 - e2 - e').
  assert (0 ≤ s) as Hs by (subst s e'; lia).
  set (m' := match s with Zpos _ => Z.shiftl (Zpos m1) s | Z0 => Zpos m1 | Zneg _ => 0 end).
  assert (m' = Zpos m1 * 2 ^ s) as Hm'.
  { subst m'. destruct s as [|p|p] eqn:Hsp; [simpl; lia | |lia].
    by rewrite Z.shiftl_mul_pow2. }
  pose proof (Z_div_mod m' (Zpos m2) ltac:(lia)) as Hdiv.
  destruct (Z.div_eucl m' (Zpos m2)) as [q r]. destruct Hdiv as [Hq Hr].
  assert (0 < 2 ^ s) as Hpow by (apply Z.pow_pos_nonneg; lia).
  fold s. split; [subst e'; lia|]. split; [rewrite <- Hm'; nia|].
  assert (0 ≤ q) as Hq0 by nia.
  split; [done|].
  destruct (Z.le_gt_cases (-1074) (d1 + e1 - (d2 + e2) - 53)) as [Hn|Hn];
    [left|right; subst e'; unfold fexp, emin; lia].
  pose proof (Zdigits2_lower (Zpos m1) ltac:(lia)) as H1.
  pose proof (Zdigits2_upper (Zpos m2) ltac:(lia)) as H2.
  fold d1 in H1. fold d2 in H2.
  assert (1 ≤ d1) by (subst d1; simpl; lia).
  assert (1 ≤ d2) by (subst d2; simpl; lia).
  assert (53 - d1 + d2 ≤ s) as Hs' by (subst s e'; unfold fexp, emin; lia).
  assert (2 ^ (52 + d2) ≤ 2 ^ (d1 - 1 + s)) as Hmono by (apply Z.pow_le_mono_r; lia).
  rewrite !Z.pow_add_r in Hmono by lia.
  assert (0 < 2 ^ (d1 - 1)) by (apply Z.pow_pos_nonneg; lia).
  assert (2 ^ 52 * 2 ^ d2 ≤ Zpos m1 * 2 ^ s) by nia.
  assert (2 ^ 52 * Zpos m2 < (q + 1) * Zpos m2) by nia.
  nia.
Qed.

(** A mantissa 0 below the format's exponents rounds into the lowest
    binade *)
Lemma binary_round_aux_underflow (sx : bool) (ex : Z) (l : location)
    (s : bool) (m : positive) (e : Z) :
  ex ≤ -1074 →
  binary_round_aux 53 1024 sx 0 ex l = S754_finite s m e → e = -1074.
Proof.
  intros Hex. unfold binary_round_aux.
  pose proof (shr_fexp_floor 0 ex l ltac:(lia)) as H1.
  destruct (shr_fexp 53 1024 0 ex l) as [mrs' e'].
  destruct H1 as (Hm1 & Hfl1 & Hc1).
  pose proof (round_nearest_even_range (shr_m mrs') (loc_of_shr_record mrs')) as Hr.
  set (r := round_nearest_even _ _) in *.
  assert (e' = -1074 ∧ shr_m mrs' = 0) as [-> Hm0].
  { unfold fexp, emin in Hc1. simpl Zdigits2 in Hc1.
    assert (0 < 2 ^ (e' - ex)) by (apply Z.pow_pos_nonneg; lia).
    split; [lia | nia]. }
  assert (2 < 2 ^ 53) by done.
  pose proof (shr_fexp_carry r (-1074) ltac:(lia) ltac:(lia)) as H2.
  destruct (shr_fexp 53 1024 r (-1074) loc_Exact) as [mrs'' e''].
  destruct H2 as (_ & _ & Hsame).
  destruct (shr_m mrs'') as [|m0|m0]; [done| |done].
  destruct (e'' <=? 1024 - 53); [|done].
  intros [= _ _ <-]. apply Hsame. lia.
Qed.

End RoundingError.

Section RoundTrip.

Local Open Scope Q_scope.

Lemma pow2_pos (e : Z) : 0 < 2 ^ e.
Proof. by apply Qpower_0_lt. Qed.

Lemma pow2_add (a b : Z) : 2 ^ (a + b) == 2 ^ a * 2 ^ b.
Proof. by apply Qpower_plus. Qed.

Lemma pow2_inject (k : Z) : (0 ≤ k)%Z → inject_Z (2 ^ k) == 2 ^ k.
Proof. intros Hk. by rewrite Zpower_Qpower. Qed.

Lemma rel_error_inject (N Dn M ex e : Z) :
  (0 < Dn)%Z → (0 ≤ N)%Z → (ex ≤ e)%Z →
  (N * (2 ^ 52 - 1) ≤ M * 2 ^ (e - ex) * Dn * 2 ^ 52 ≤ N * (2 ^ 52 + 1))%Z →
  Qabs (inject_Z M * 2 ^ e - inject_Z N / inject_Z Dn * 2 ^ ex)
  <= u64 * (inject_Z N / inject_Z Dn * 2 ^ ex).
Proof.
  intros HDn HN Hle [Hlo Hhi].
  replace e with ((e - ex) + ex)%Z at 1 by lia.
  rewrite pow2_add, <- pow2_inject by lia.
  pose proof (pow2_pos ex) as HT. set (T := 2 ^ ex) in *.
  rewrite Zle_Qle in Hlo, Hhi. rewrite !inject_Z_mult in Hlo, Hhi.
  change (inject_Z (2 ^ 52 - 1)) with (4503599627370495 # 1) in Hlo.
  change (inject_Z (2 ^ 52 + 1)) with (4503599627370497 # 1) in Hhi.
  change (inject_Z (2 ^ 52)) with (4503599627370496 # 1) in Hlo, Hhi.
  set (k := inject_Z M * inject_Z (2 ^ (e - ex))) in *.
  assert (0 < inject_Z Dn) as Hdn by (change 0 with (inject_Z 0); by rewrite <- Zlt_Qlt).
  assert (0 <= inject_Z N) as Hn by (change 0 with (inject_Z 0); by rewrite <- Zle_Qle).
  set (dn := inject_Z Dn) in *. set (n := inject_Z N) in *.
  assert (n == n / dn * dn) as Hq
    by (field; intros H0; apply (Qlt_not_eq _ _ Hdn); symmetry; exact H0).
  set (q := n / dn) in *.
  rewrite Hq in Hlo, Hhi.
  assert (q * (4503599627370495 # 1) <= k * (4503599627370496 # 1)) as Hlo' by nra.
  assert (k * (4503599627370496 # 1) <= q * (4503599627370497 # 1)) as Hhi' by nra.
  assert (0 <= k * T * (4503599627370496 # 1) - q * T * (4503599627370495 # 1)) as H1.
  { assert (k * T * (4503599627370496 # 1) - q * T * (4503599627370495 # 1)
            == (k * (4503599627370496 # 1) - q * (4503599627370495 # 1)) * T) as -> by ring.
    apply Qmult_le_0_compat; lra. }
  assert (0 <= q * T * (4503599627370497 # 1) - k * T * (4503599627370496 # 1)) as H2.
  { assert (q * T * (4503599627370497 # 1) - k * T * (4503599627370496 # 1)
            == (q * (4503599627370497 # 1) - k * (4503599627370496 # 1)) * T) as -> by ring.
    apply Qmult_le_0_compat; lra. }
  assert (0 <= q * T) as H3 by (apply Qmult_le_0_compat; [|lra]; subst q;
    apply Qle_shift_div_l; [done | lra]).
  assert (inject_Z M * (inject_Z (2 ^ (e - ex)) * T) == k * T) as ->
    by (unfold k; ring).
  clearbody k q T. set (KT := k * T) in *. set (QT := q * T) in *.
  clearbody KT QT.
  apply Qabs_Qle_condition. unfold u64. split; lra.
Qed.

Lemma B2Q_finite (s : bool) (m : positive) (e : Z) :
  B2Q (S754_finite s m e) == sgn s * (inject_Z (Zpos m) * 2 ^ e).
Proof.
  unfold B2Q, float_value, sgn. cbn [default from_option id]. destruct s; simpl cond_Zopp; [|ring].
  change (Z.neg m) with (- Z.pos m)%Z. rewrite inject_Z_opp. ring.
Qed.

Lemma sgn_xorb (a b : bool) : sgn (xorb a b) == sgn a * sgn b.
Proof. by destruct a, b. Qed.

Lemma mantissa_value_pos (m : positive) (e : Z) : 0 < inject_Z (Zpos m) * 2 ^ e.
Proof.
  apply Qmult_lt_0_compat; [|apply pow2_pos].
  change 0 with (inject_Z 0). by rewrite <- Zlt_Qlt.
Qed.

(** From the magnitudes to the signed values *)
Lemma signed_error (σ : bool) (R V A B : Q) :
  A == sgn σ * R → B == sgn σ * V → 0 <= V →
  Qabs (R - V) <= u64 * V → Qabs (A - B) <= u64 * Qabs B.
Proof.
  intros -> -> HV H.
  assert (sgn σ * R - sgn σ * V == sgn σ * (R - V)) as -> by ring.
  rewrite !Qabs_Qmult.
  assert (Qabs (sgn σ) == 1) as -> by (by destruct σ).
  rewrite (Qabs_pos V), !Qmult_1_l by done. exact H.
Qed.

Lemma float_value_B2Q (x : float) : is_finite x = true → float_value x = Some (B2Q x).
Proof. by destruct x. Qed.

(** *** Multiplication *)

Lemma SFmul_error (sx sy : bool) (mx my : positive) (ex ey : Z) :
  normal (SFmul 53 1024 (S754_finite sx mx ex) (S754_finite sy my ey)) →
  Qabs (B2Q (SFmul 53 1024 (S754_finite sx mx ex) (S754_finite sy my ey))
        - B2Q (S754_finite sx mx ex) * B2Q (S754_finite sy my ey))
  <= u64 * Qabs (B2Q (S754_finite sx mx ex) * B2Q (S754_finite sy my ey)).
Proof.
  cbn [SFmul].
  assert (B2Q (S754_finite sx mx ex) * B2Q (S754_finite sy my ey)
          == sgn (xorb sx sy) * (inject_Z (Zpos (mx * my)) / inject_Z 1 * 2 ^ (ex + ey))) as Hxy.
  { rewrite !B2Q_finite, sgn_xorb, pow2_add, Pos2Z.inj_mul, inject_Z_mult.
    change (inject_Z 1) with 1. field. }
  set (p := (mx * my)%positive) in *. clearbody p.
  destruct (binary_round_aux 53 1024 (xorb sx sy) (Zpos p) (ex + ey) loc_Exact)
    as [| | |s m e] eqn:Hres; try done.
  intros He. cbn [normal] in He.
  destruct (binary_round_aux_error (xorb sx sy) (Zpos p) (ex + ey) loc_Exact (Zpos p) 1 s m e
              ltac:(lia) ltac:(lia) ltac:(lia) ltac:(left; split; [done|lia])
              ltac:(left; done) Hres) as (-> & Hle & Hb).
  apply (signed_error (xorb sx sy) (inject_Z (Zpos m) * 2 ^ e)
           (inject_Z (Zpos p) / inject_Z 1 * 2 ^ (ex + ey))).
  - apply B2Q_finite.
  - exact Hxy.
  - change (inject_Z 1) with 1.
    assert (inject_Z (Zpos p) / 1 * 2 ^ (ex + ey)
            == inject_Z (Zpos p) * 2 ^ (ex + ey)) as -> by field.
    apply Qlt_le_weak, mantissa_value_pos.
  - apply rel_error_inject; [lia | lia | lia | lia].
Qed.

(** *** Division *)

Lemma SFdiv_error (sx sy : bool) (mx my : positive) (ex ey : Z) :
  normal (SFdiv 53 1024 (S754_finite sx mx ex) (S754_finite sy my ey)) →
  Qabs (B2Q (SFdiv 53 1024 (S754_finite sx mx ex) (S754_finite sy my ey))
        - B2Q (S754_finite sx mx ex) / B2Q (S754_finite sy my ey))
  <= u64 * Qabs (B2Q (S754_finite sx mx ex) / B2Q (S754_finite sy my ey)).
Proof.
  cbn [SFdiv].
  pose proof (SFdiv_core_binary_spec mx my ex ey) as Hcore.
  destruct (SFdiv_core_binary 53 1024 (Zpos mx) ex (Zpos my) ey) as [[q e'] l].
  destruct Hcore as (He' & Hq & Hq0 & Hbig).
  set (sh := (ex - ey - e')%Z) in *.
  destruct (binary_round_aux 53 1024 (xorb sx sy) q e' l) as [| | |s m e] eqn:Hres; try done.
  intros He. cbn [normal] in He.
  assert (0 < q)%Z as Hqpos.
  { destruct (Z.eq_dec q 0%Z) as [->|]; [|lia].
    destruct Hbig as [Hbig|Hbig]; [done|].
    apply binary_round_aux_underflow in Hres; lia. }
  assert (0 ≤ sh)%Z as Hsh by (unfold sh; lia).
  assert (0 < 2 ^ sh)%Z as Hpow by (apply Z.pow_pos_nonneg; lia).
  destruct (binary_round_aux_error (xorb sx sy) q e' l (Zpos mx * 2 ^ sh) (Zpos my) s m e
              Hqpos ltac:(lia) Hq) as (-> & Hle & Hb); [| left; done | done |].
  { destruct Hbig as [Hbig|Hbig]; [|right; right; lia].
    right. left. pose proof (Zdigits2_upper q ltac:(lia)) as Hup.
    destruct (Z.le_gt_cases 53 (Zdigits2 q)) as [|Hlt]; [done|].
    assert (2 ^ Zdigits2 q ≤ 2 ^ 52)%Z by (apply Z.pow_le_mono_r; lia). lia. }
  apply (signed_error (xorb sx sy) (inject_Z (Zpos m) * 2 ^ e)
           (inject_Z (Zpos mx * 2 ^ sh) / inject_Z (Zpos my) * 2 ^ e')).
  - apply B2Q_finite.
  - rewrite !B2Q_finite, sgn_xorb, inject_Z_mult. rewrite pow2_inject by lia.
    assert (2 ^ ex == 2 ^ sh * 2 ^ e' * 2 ^ ey) as ->
      by (replace ex with (sh + e' + ey)%Z at 1 by (unfold sh; lia);
          rewrite !pow2_add; reflexivity).
    pose proof (pow2_pos ey) as Hey.
    pose proof (mantissa_value_pos my 0) as Hmy.
    change (2 ^ 0) with 1 in Hmy. rewrite Qmult_1_r in Hmy.
    destruct sy; unfold sgn; field;
      (split; intros H0; [apply (Qlt_not_eq _ _ Hmy) | apply (Qlt_not_eq _ _ Hey)];
       symmetry; exact H0).
  - apply Qmult_le_0_compat; [|apply Qlt_le_weak, pow2_pos].
    apply Qle_shift_div_l.
    + change 0 with (inject_Z 0). by rewrite <- Zlt_Qlt.
    + rewrite Qmult_0_l. change 0 with (inject_Z 0). rewrite <- Zle_Qle. lia.
  - apply rel_error_inject; [lia | lia | lia | lia].
Qed.

Lemma exact_error (A B : Q) : A == B → Qabs (A - B) <= u64 * Qabs B.
Proof.
  intros ->. assert (B - B == 0) as -> by ring.
  change (Qabs 0) with 0. apply Qmult_le_0_compat; [done | apply Qabs_nonneg].
Qed.

(** *** Addition and subtraction *)

Lemma aligned_value (s : bool) (m : positive) (e ez : Z) :
  (ez ≤ e)%Z →
  inject_Z (cond_Zopp s (Zpos m * 2 ^ (e - ez))) * 2 ^ ez == B2Q (S754_finite s m e).
Proof.
  intros Hle. rewrite B2Q_finite.
  replace e with ((e - ez) + ez)%Z at 2 by lia. rewrite pow2_add.
  destruct s; unfold sgn; simpl cond_Zopp.
  - rewrite inject_Z_opp, inject_Z_mult. rewrite pow2_inject by lia. ring.
  - rewrite inject_Z_mult. rewrite pow2_inject by lia. ring.
Qed.

Lemma binary_normalize_error (z ez : Z) :
  (-1074 ≤ ez)%Z →
  is_finite (binary_normalize 53 1024 z ez false) = true →
  Qabs (B2Q (binary_normalize 53 1024 z ez false) - inject_Z z * 2 ^ ez)
  <= u64 * Qabs (inject_Z z * 2 ^ ez).
Proof.
  intros Hez. unfold binary_normalize.
  assert (∀ (s : bool) (p : positive),
            is_finite (binary_round 53 1024 s p ez) = true →
            Qabs (B2Q (binary_round 53 1024 s p ez) - sgn s * (inject_Z (Zpos p) * 2 ^ ez))
            <= u64 * Qabs (sgn s * (inject_Z (Zpos p) * 2 ^ ez))) as Hround.
  { intros s p. pose proof (binary_round_error s p ez Hez) as H.
    destruct (binary_round 53 1024 s p ez) as [| | |s' m e]; try done.
    destruct H as (-> & c & Hc & Hle & Hb). intros _.
    assert (0 < 2 ^ c)%Z by (apply Z.pow_pos_nonneg; lia).
    apply (signed_error s (inject_Z (Zpos m) * 2 ^ e)
             (inject_Z (Zpos p * 2 ^ c) / inject_Z 1 * 2 ^ (ez - c))).
    - apply B2Q_finite.
    - rewrite inject_Z_mult. rewrite pow2_inject by lia.
      replace ez with (c + (ez - c))%Z at 1 by lia. rewrite pow2_add.
      change (inject_Z 1) with 1. field.
    - apply Qmult_le_0_compat; [|apply Qlt_le_weak, pow2_pos].
      change (inject_Z 1) with 1. apply Qle_shift_div_l; [done|]. rewrite Qmult_0_l.
      change 0 with (inject_Z 0). rewrite <- Zle_Qle. lia.
    - apply rel_error_inject; [lia | lia | lia | ].
      replace (Zpos m * 2 ^ (e - (ez - c)) * 1 * 2 ^ 52)%Z
        with (Zpos m * 2 ^ (e - (ez - c)) * 2 ^ 52)%Z by lia.
      exact Hb. }
  destruct z as [|p|p].
  - intros _. apply exact_error. cbn [binary_normalize].
    change (B2Q (S754_zero false)) with 0. change (inject_Z 0) with 0. ring.
  - intros Hfin. specialize (Hround false p Hfin).
    unfold sgn in Hround. rewrite !Qmult_1_l in Hround. exact Hround.
  - intros Hfin. specialize (Hround true p Hfin).
    change (Z.neg p) with (- Z.pos p)%Z. rewrite inject_Z_opp.
    unfold sgn in Hround.
    assert (- inject_Z (Z.pos p) * 2 ^ ez == -1 * (inject_Z (Z.pos p) * 2 ^ ez)) as -> by ring.
    exact Hround.
Qed.

Lemma SFadd_error (x y : float) :
  in_format x → in_format y → is_finite (SFadd 53 1024 x y) = true →
  Qabs (B2Q (SFadd 53 1024 x y) - (B2Q x + B2Q y)) <= u64 * Qabs (B2Q x + B2Q y).
Proof.
  destruct x as [sx| | |sx mx ex], y as [sy| | |sy my ey]; try done.
  - intros _ _ _. apply exact_error. by destruct sx, sy.
  - intros _ _ _. apply exact_error. cbn [SFadd]. change (B2Q (S754_zero sx)) with 0. ring.
  - intros _ _ _. apply exact_error. cbn [SFadd]. change (B2Q (S754_zero sy)) with 0. ring.
  - cbn [in_format SFadd]. intros Hex Hey.
    pose proof (shl_align_value mx ex (Z.min ex ey)) as Hx.
    pose proof (shl_align_value my ey (Z.min ex ey)) as Hy.
    destruct (shl_align mx ex (Z.min ex ey)) as [mx' ex'].
    destruct (shl_align my ey (Z.min ex ey)) as [my' ey'].
    destruct Hx as [-> Hx], Hy as [-> Hy]. cbn [fst].
    replace (Z.min ex (Z.min ex ey)) with (Z.min ex ey) in Hx by lia.
    replace (Z.min ey (Z.min ex ey)) with (Z.min ex ey) in Hy by lia.
    set (ez := Z.min ex ey) in *. rewrite Hx, Hy.
    assert (B2Q (S754_finite sx mx ex) + B2Q (S754_finite sy my ey)
            == inject_Z (cond_Zopp sx (Zpos mx * 2 ^ (ex - ez))
                         + cond_Zopp sy (Zpos my * 2 ^ (ey - ez))) * 2 ^ ez) as ->.
    { rewrite inject_Z_plus, Qmult_plus_distr_l.
      rewrite !aligned_value by (unfold ez; lia). reflexivity. }
    apply binary_normalize_error. unfold ez. lia.
Qed.

Lemma in_format_opp (y : float) : in_format y → in_format (SFopp y).
Proof. by destruct y. Qed.

Lemma B2Q_opp (y : float) : B2Q (SFopp y) == - B2Q y.
Proof.
  destruct y as [| | |s m e]; try done. cbn [SFopp]. rewrite !B2Q_finite.
  destruct s; unfold sgn; simpl; ring.
Qed.

Lemma SFsub_add_opp (x y : float) :
  in_format x → in_format y → SFsub 53 1024 x y = SFadd 53 1024 x (SFopp y).
Proof.
  destruct x as [sx| | |sx mx ex], y as [sy| | |sy my ey]; try done.
  - intros _ _. by destruct sx, sy.
  - intros _ _. cbn [SFsub SFadd SFopp]. f_equal.
    destruct sy; simpl; lia.
Qed.

Lemma SFsub_error (x y : float) :
  in_format x → in_format y → is_finite (SFsub 53 1024 x y) = true →
  Qabs (B2Q (SFsub 53 1024 x y) - (B2Q x - B2Q y)) <= u64 * Qabs (B2Q x - B2Q y).
Proof.
  intros Hx Hy. rewrite SFsub_add_opp by done. intros Hfin.
  pose proof (SFadd_error x (SFopp y) Hx (in_format_opp y Hy) Hfin) as H.
  rewrite B2Q_opp in H. exact H.
Qed.

Lemma Qabs_via (x y z : Q) : Qabs (x - z) <= Qabs (x - y) + Qabs (y - z).
Proof.
  assert (x - z == (x - y) + (y - z)) as -> by ring. apply Qabs_triangle.
Qed.

Lemma Qabs_bound (x y : Q) : Qabs x <= Qabs (x - y) + Qabs y.
Proof.
  assert (x == (x - y) + y) as Hx by ring. rewrite Hx at 1. apply Qabs_triangle.
Qed.

(** Four roundings of relative error [u64] each, composed *)
Lemma roundtrip_error (X M S A B C D : Q) :
  ¬ S == 0 →
  Qabs (A - (X - M)) <= u64 * Qabs (X - M) →
  Qabs (B - A / S) <= u64 * Qabs (A / S) →
  Qabs (C - B * S) <= u64 * Qabs (B * S) →
  Qabs (D - (C + M)) <= u64 * Qabs (C + M) →
  Qabs (D - X) <= u64 * (Qabs X + 5 * Qabs (X - M)).
Proof.
  intros HS HA HB HC HD.
  assert (Qabs (B * S - A) <= u64 * Qabs A) as HBS.
  { assert (B * S - A == (B - A / S) * S) as -> by (field; exact HS).
    assert (Qabs A == Qabs (A / S) * Qabs S) as ->
      by (rewrite <- Qabs_Qmult; apply Qabs_wd; field; exact HS).
    rewrite Qabs_Qmult, Qmult_assoc.
    apply Qmult_le_compat_r; [exact HB | apply Qabs_nonneg]. }
  pose proof (Qabs_bound A (X - M)) as T1.
  pose proof (Qabs_bound (B * S) A) as T2.
  pose proof (Qabs_via C (B * S) A) as T3.
  pose proof (Qabs_via C A (X - M)) as T4.
  assert (Qabs (C + M) <= Qabs (C - (X - M)) + Qabs X) as T5.
  { assert (C + M == (C - (X - M)) + X) as -> by ring. apply Qabs_triangle. }
  assert (Qabs (D - X) <= Qabs (D - (C + M)) + Qabs (C - (X - M))) as T6.
  { assert (D - X == (D - (C + M)) + (C - (X - M))) as -> by ring. apply Qabs_triangle. }
  pose proof (Qabs_nonneg (X - M)) as P1. pose proof (Qabs_nonneg X) as P2.
  pose proof (Qabs_nonneg A) as P3.
  unfold u64 in *.
  set (a0 := Qabs (X - M)) in *. set (aA := Qabs A) in *. set (aX := Qabs X) in *.
  set (aBS := Qabs (B * S)) in *. set (d1 := Qabs (A - (X - M))) in *.
  set (d2 := Qabs (B * S - A)) in *. set (d3 := Qabs (C - B * S)) in *.
  set (d4 := Qabs (C - A)) in *. set (d5 := Qabs (C - (X - M))) in *.
  set (aCM := Qabs (C + M)) in *. set (d6 := Qabs (D - (C + M))) in *.
  set (d7 := Qabs (D - X)) in *.
  clearbody a0 aA aX aBS d1 d2 d3 d4 d5 aCM d6 d7. clear HB HS.
  lra.
Qed.

Lemma binary64_in_format (x : float) : binary64 x → in_format x.
Proof.
  intros [Hfin Hvalid]. destruct x as [| | |s m e]; try done.
  cbn [valid_binary in_format] in *. unfold bounded, canonical_mantissa in Hvalid.
  apply andb_prop in Hvalid as [Hc _]. apply Z.eqb_eq in Hc.
  unfold fexp, emin in Hc. lia.
Qed.

Lemma normal_in_format (x : float) : normal x → in_format x.
Proof. destruct x; try done. cbn. lia. Qed.

Lemma B2Q_nonzero (s : bool) (m : positive) (e : Z) : ¬ B2Q (S754_finite s m e) == 0.
Proof.
  rewrite B2Q_finite. pose proof (mantissa_value_pos m e) as Hpos.
  destruct s; unfold sgn; intros H; lra.
Qed.

(** The round trip of one label *)
Lemma roundtrip_close (x mean std : float) :
  binary64 x → binary64 mean → is_finite std = true → SFeqb std zero = false →
  no_overflow_underflow x mean std →
  close (SFadd 53 1024
           (SFmul 53 1024 (SFdiv 53 1024 (SFsub 53 1024 x mean) std) std) mean)
    x mean.
Proof.
  intros Hx Hm Hsfin Hsnz (Ha & Hbc & Hd).
  apply binary64_in_format in Hx, Hm.
  destruct std as [ss| | |ss ms es]; try done.
  split; [exact Hd|].
  pose proof (SFsub_error x mean Hx Hm Ha) as HA.
  set (a := SFsub 53 1024 x mean) in *.
  apply (roundtrip_error _ _ (B2Q (S754_finite ss ms es)) (B2Q a)
           (B2Q (SFdiv 53 1024 a (S754_finite ss ms es)))
           (B2Q (SFmul 53 1024 (SFdiv 53 1024 a (S754_finite ss ms es))
                   (S754_finite ss ms es))));
    [apply B2Q_nonzero | exact HA | | |].
  - destruct a as [sa| | |sa ma ea]; [|done|done|].
    + apply exact_error. cbn [SFdiv]. change (B2Q (S754_zero (xorb sa ss))) with 0.
      change (B2Q (S754_zero sa)) with 0. field. apply B2Q_nonzero.
    + apply SFdiv_error. apply Hbc. by destruct sa.
  - destruct a as [sa| | |sa ma ea]; [|done|done|].
    + apply exact_error. cbn [SFdiv SFmul].
      change (B2Q (S754_zero (xorb (xorb sa ss) ss))) with 0.
      change (B2Q (S754_zero (xorb sa ss))) with 0. ring.
    + destruct Hbc as [Hb Hc]; [by destruct sa|].
      destruct (SFdiv 53 1024 (S754_finite sa ma ea) (S754_finite ss ms es))
        as [| | |sb mb eb]; try done.
      by apply SFmul_error.
  - apply SFadd_error; [|exact Hm|exact Hd].
    destruct a as [sa| | |sa ma ea]; [|done|done|].
    + by cbn [SFdiv SFmul].
    + apply normal_in_format, Hbc. by destruct sa.
Qed.

Lemma close_within_tolerance (x' x mean : float) (tol : Q) :
  is_finite x = true → close x' x mean →
  u64 * (Qabs (B2Q x) + 5 * Qabs (B2Q x - B2Q mean)) <= tol * Qabs (B2Q x) →
  within_tolerance tol x x' = true.
Proof.
  intros Hx [Hx' Hclose] Htol. unfold within_tolerance.
  rewrite (float_value_B2Q x Hx), (float_value_B2Q x' Hx').
  apply Qle_bool_iff. by eapply Qle_trans.
Qed.

Lemma roundtrip_row_close (row mean std : vector) :
  Forall binary64 row → Forall binary64 mean →
  Forall (λ s, is_finite s = true ∧ SFeqb s zero = false) std →
  Forall3 no_overflow_underflow row mean std →
  Forall3 close
    (zip_with (SFadd 53 1024)
       (zip_with (SFmul 53 1024)
          (zip_with (SFdiv 53 1024) (zip_with (SFsub 53 1024) row mean) std) std) mean)
    row mean.
Proof.
  intros Hrow Hmean Hstd H. induction H as [|x m s row mean std Hxms _ IH]; [constructor|].
  apply Forall_cons in Hrow as [Hx Hrow], Hmean as [Hm Hmean], Hstd as [[Hs Hsz] Hstd].
  cbn [zip_with]. constructor; [by apply roundtrip_close | by apply IH].
Qed.

Lemma close_row_within_tolerance (row' row mean : vector) :
  Forall binary64 row → Forall3 close row' row mean →
  Forall3 (λ x' x m,
             close x' x m
             ∧ ∀ tol, u64 * (Qabs (B2Q x) + 5 * Qabs (B2Q x - B2Q m))
                      <= tol * Qabs (B2Q x) →
                      within_tolerance tol x x' = true)
    row' row mean.
Proof.
  intros Hrow H. induction H as [|x' x m row' row mean Hc _ IH]; [constructor|].
  apply Forall_cons in Hrow as [[Hx _] Hrow].
  constructor; [|by apply IH].
  split; [exact Hc|]. intros tol. by apply close_within_tolerance.
Qed.

(** C2 (amended): in binary64, for label vectors, means and standard
    deviations that are numbers of the format, no standard deviation zero,
    and a round trip in which none of the four operations overflows or
    underflows, [normalize] returns and the inverse [x*std + mean] of the
    normalized labels gives, label by label, a finite number [x'] with
    [|x' - x| <= 2^-52 * (|x| + 5 * |x - mean|)].  So [x'] is within the
    relative tolerance [tol] of [x] wherever
    [2^-52 * (|x| + 5 * |x - mean|) <= tol * |x|]: the tolerance is met in
    proportion to how far the mean is from the label, not for every finite
    label. *)
Theorem invert_normalize_close (mean std : vector) (lb : matrix) :
  length std = length mean →
  Forall binary64 mean →
  Forall (λ s, is_finite s = true ∧ SFeqb s zero = false) std →
  Forall (λ row, Forall binary64 row ∧ Forall3 no_overflow_underflow row mean std) lb →
  ∃ normalized,
    normalize 53 1024 mean std lb = Ok normalized ∧
    Forall2 (λ row' row,
               Forall3 (λ x' x m,
                          close x' x m
                          ∧ ∀ tol, u64 * (Qabs (B2Q x) + 5 * Qabs (B2Q x - B2Q m))
                                   <= tol * Qabs (B2Q x) →
                                   within_tolerance tol x x' = true)
                 row' row mean)
      (invert_with (SFmul 53 1024) (SFadd 53 1024) mean std normalized) lb.
Proof.
  intros Hlen Hmean Hstd Hlb. eexists. split.
  - apply (normalize_with_same_length _ _ (length mean)); [done | done |].
    eapply Forall_impl; [exact Hlb|]. intros row [_ H]. simpl.
    by apply Forall3_length_lm in H.
  - unfold invert_with. rewrite map_map.
    induction Hlb as [|row lb [Hrow H3] _ IH]; [constructor|].
    cbn [map]. constructor; [|exact IH].
    apply close_row_within_tolerance; [done|].
    by apply roundtrip_row_close.
Qed.

End RoundTrip.

(** ** Error propagation *)

(** C8: for every model, spectrum and configuration, the error propagation
    with an ensemble of fewer than two members, K = 1 included, returns
    InsufficientSamplesError and no estimate, whatever the model does. *)
Theorem propagate_needs_two_samples (prec emax : Z) (Generator Model : Type)
    (predict : Model → Generator → vector → option vector * Generator)
    (perturb : Generator → vector → vector * Generator)
    (ensemble_mean ensemble_std : vector → float)
    (model : Model) (K : nat) (mean_labels std_labels x : vector) (g : Generator) :
  K < 2 →
  propagate prec emax Generator Model predict perturb ensemble_mean ensemble_std
    model K mean_labels std_labels x g = (inl InsufficientSamplesError, g).
Proof. intros HK. unfold propagate. by rewrite decide_True. Qed.

(** * Evaluation on the binary64 instance *)

Lemma ex_file_wf : wf_input ex_stats ex_file.
Proof.
  split; try reflexivity.
  - eexists _, _. repeat split; reflexivity.
  - repeat constructor.
Qed.

Lemma ex_file_varied_wf : wf_input ex_stats ex_file_varied.
Proof.
  split; try reflexivity.
  - eexists _, _. repeat split; reflexivity.
  - repeat constructor.
Qed.

(** The cell on the five spectra: the rows of NaN and of constant flux are
    gone, and Train takes all three remaining rows *)
Example cell_on_ex_file :
  ∃ out,
    cell 53 1024 std64 lcg ex_stats ex_file 7 = (Ok out, 1) ∧
    train_spectra out =
      reshape_channels [[b64 2 0; b64 7 0]; [b64 1 0; b64 2 0]; [b64 3 0; zero]] ∧
    cv_spectra out = [].
Proof. eexists. split; [vm_compute; reflexivity|]. split; reflexivity. Qed.

(** Labels shorter than the spectra: [labels[indices]] reaches past the end *)
Example clean_short_labels :
  clean std64 (spectrum ex_file) (take 1 ex_labels) = Raise IndexError.
Proof. vm_compute. reflexivity. Qed.

(** Statistics of a wrong length: the subtraction cannot broadcast *)
Example normalize_shape_mismatch :
  normalize 53 1024 [b64 4000 0; b64 2 0] [b64 500 0; b64 1 0] ex_labels
  = Raise ValueError.
Proof. vm_compute. reflexivity. Qed.

(** On the labels of [ex_file] the binary64 round trip is exact *)
Example roundtrip_on_ex_labels :
  ∃ normalized,
    normalize 53 1024 [b64 4000 0; b64 2 0; b64 0 0] [b64 500 0; b64 1 0; b64 1 (-1)]
      ex_labels = Ok normalized ∧
    invert_with (SFmul 53 1024) (SFadd 53 1024)
      [b64 4000 0; b64 2 0; b64 0 0] [b64 500 0; b64 1 0; b64 1 (-1)] normalized
    = ex_labels.
Proof. eexists. split; vm_compute; reflexivity. Qed.

(** Witness of C3 *)
Lemma clean_leaves_no_nan_witness :
  length (spectrum ex_file) = length ex_labels ∧
  ∃ spectra' labels',
    clean std64 (spectrum ex_file) ex_labels = Ok (spectra', labels') ∧
    length spectra' = length labels' ∧
    Forall (Forall (λ x, isnan x = false)) spectra'.
Proof.
  split; [reflexivity|].
  destruct (clean_leaves_no_nan std64 (spectrum ex_file) ex_labels eq_refl)
    as (spectra' & labels' & Hclean & _ & _ & Hlen & Hnan).
  exists spectra', labels'. exact (conj Hclean (conj Hlen Hnan)).
Defined.

(** Witness of C4 *)
Lemma clean_removes_exactly_zero_std_witness :
  length (spectrum ex_file) = length ex_labels ∧
  ∃ spectra' labels',
    clean std64 (spectrum ex_file) ex_labels = Ok (spectra', labels') ∧
    length spectra' =
      length (spectrum ex_file)
      - length (filter (λ row, SFeqb (std64 row) zero = true)
                  (nan_to_zero (spectrum ex_file))).
Proof.
  split; [reflexivity|].
  destruct (clean_removes_exactly_zero_std std64 (spectrum ex_file) ex_labels eq_refl)
    as (spectra' & labels' & Hclean & _ & _ & Hlen).
  exists spectra', labels'. exact (conj Hclean Hlen).
Defined.

(** Witness of C7 *)
Lemma clean_preserves_pairing_witness :
  length (spectrum ex_file) = length ex_labels ∧
  ∃ spectra' labels',
    clean std64 (spectrum ex_file) ex_labels = Ok (spectra', labels') ∧
    zip spectra' labels' `sublist_of` zip (nan_to_zero (spectrum ex_file)) ex_labels.
Proof.
  split; [reflexivity|].
  destruct (clean_preserves_pairing std64 (spectrum ex_file) ex_labels eq_refl)
    as (spectra' & labels' & indices & Hclean & _ & _ & _ & Hsub & _).
  exists spectra', labels'. exact (conj Hclean Hsub).
Defined.

(** The split on the four varied spectra *)
Lemma split_partitions_cleaned_set_witness :
  wf_input ex_stats ex_file_varied ∧
  ∃ Sp Lb num_train num_fluxes p out st',
    reference_set 53 1024 std64 ex_stats ex_file_varied = Ok (Sp, Lb, num_train, num_fluxes) ∧
    cell 53 1024 std64 lcg ex_stats ex_file_varied 7 = (Ok out, st') ∧
    p ≡ₚ seq 0 (length Sp) ∧
    train_labels out = (λ i, Lb !!! i) <$> take num_train p ∧
    cv_labels out = (λ i, Lb !!! i) <$> drop num_train p ∧
    (∀ i, i ∈ take num_train p → i ∉ drop num_train p).
Proof.
  split; [exact ex_file_varied_wf|].
  destruct (split_partitions_cleaned_set 53 1024 std64 nat lcg
              ex_stats ex_file_varied 7 ex_file_varied_wf)
    as (Sp & Lb & num_train & num_fluxes & p & out & st'
        & Href & Hcell & Hp & _ & Htrain & _ & Hcv & Hdisjoint & _).
  exists Sp, Lb, num_train, num_fluxes, p, out, st'.
  exact (conj Href (conj Hcell (conj Hp (conj Htrain (conj Hcv Hdisjoint))))).
Defined.

(** Witness of C10 *)
Lemma shuffle_keeps_rows_together_witness :
  wf_input ex_stats ex_file ∧
  ∃ Sp Lb num_train num_fluxes out st' ts cs,
    reference_set 53 1024 std64 ex_stats ex_file = Ok (Sp, Lb, num_train, num_fluxes) ∧
    cell 53 1024 std64 lcg ex_stats ex_file 7 = (Ok out, st') ∧
    train_spectra out = reshape_channels ts ∧
    cv_spectra out = reshape_channels cs ∧
    zip ts (train_labels out) ++ zip cs (cv_labels out) ≡ₚ zip Sp Lb.
Proof.
  split; [exact ex_file_wf|].
  destruct (shuffle_keeps_rows_together 53 1024 std64 nat lcg ex_stats ex_file 7 ex_file_wf)
    as (Sp & Lb & num_train & num_fluxes & out & st' & ts & cs
        & Href & Hcell & Hts & Hcs & _ & _ & _ & _ & Hperm).
  exists Sp, Lb, num_train, num_fluxes, out, st', ts, cs.
  exact (conj Href (conj Hcell (conj Hts (conj Hcs Hperm)))).
Defined.

(** Witness of C5: the states 7 and 71 yield the same three draws *)
Lemma split_determined_by_draws_witness :
  draws lcg (num_draws 53 1024 std64 ex_stats ex_file_varied) 7 =
  draws lcg (num_draws 53 1024 std64 ex_stats ex_file_varied) 71
  ∧ (cell 53 1024 std64 lcg ex_stats ex_file_varied 7).1 =
    (cell 53 1024 std64 lcg ex_stats ex_file_varied 71).1.
Proof.
  split; [reflexivity|].
  exact (proj1 (split_determined_by_draws 53 1024 std64 nat lcg
                  ex_stats ex_file_varied 7 71 eq_refl)).
Defined.


(** Witness of C6 *)
Lemma normalize_divides_by_zero_std_witness :
  length [b64 4000 0] = 1 ∧ length [zero] = 1 ∧
  Forall (λ row, length row = 1) [[b64 4500 0]; [b64 4000 0]] ∧
  ∃ out,
    normalize 53 1024 [b64 4000 0] [zero] [[b64 4500 0]; [b64 4000 0]] = Ok out ∧
    length out = 2.
Proof.
  split; [reflexivity|]. split; [reflexivity|].
  split; [repeat constructor|].
  destruct (normalize_divides_by_zero_std 53 1024 std64 [b64 4000 0] [zero]
              [[b64 4500 0]; [b64 4000 0]] 1 eq_refl eq_refl
              ltac:(repeat constructor))
    as [(out & Hout & Hlen & _) _].
  exists out. exact (conj Hout Hlen).
Defined.

(** The round trip over the rationals on two label vectors *)
Lemma invert_normalize_exact_witness :
  length [4000 # 1; 2 # 1]%Q = 2 ∧ length [500 # 1; 1 # 2]%Q = 2 ∧
  Forall (λ row, length row = 2) [[4500 # 1; 3 # 1]; [3500 # 1; 1 # 4]]%Q ∧
  Forall (λ s, ¬ (s == 0)%Q) [500 # 1; 1 # 2]%Q ∧
  ∃ normalized,
    normalize_with Qminus Qdiv [4000 # 1; 2 # 1]%Q [500 # 1; 1 # 2]%Q
      [[4500 # 1; 3 # 1]; [3500 # 1; 1 # 4]]%Q = Ok normalized ∧
    Forall2 (Forall2 Qeq)
      (invert_with Qmult Qplus [4000 # 1; 2 # 1]%Q [500 # 1; 1 # 2]%Q normalized)
      [[4500 # 1; 3 # 1]; [3500 # 1; 1 # 4]]%Q.
Proof.
  assert (Forall (λ s, ¬ (s == 0)%Q) [500 # 1; 1 # 2]%Q) as Hnz
    by (repeat constructor; intros H; discriminate H).
  split; [reflexivity|]. split; [reflexivity|].
  split; [repeat constructor|]. split; [exact Hnz|].
  exact (invert_normalize_exact [4000 # 1; 2 # 1]%Q [500 # 1; 1 # 2]%Q
           [[4500 # 1; 3 # 1]; [3500 # 1; 1 # 4]]%Q 2 eq_refl eq_refl
           ltac:(repeat constructor) Hnz).
Defined.

(** The obligations of the round trip on concrete labels, entry by entry *)
Ltac by_entries :=
  repeat match goal with
  | |- Forall _ [] => apply Forall_nil_2
  | |- Forall _ (_ :: _) => apply Forall_cons_2
  | |- Forall3 _ [] [] [] => apply Forall3_nil
  | |- Forall3 _ (_ :: _) _ _ => apply Forall3_cons
  | |- _ ∧ _ => split
  | |- binary64 _ => split
  | |- no_overflow_underflow _ _ _ =>
      vm_compute;
      split; [reflexivity
             | split; [first [intros H; discriminate H | intros _; split; reflexivity]
                      | reflexivity]]
  | |- _ = _ => vm_compute; reflexivity
  | |- _ => progress cbv beta
  end.

Lemma ex_stats_binary64 :
  Forall binary64 [b64 4000 0; b64 2 0; b64 0 0]
  ∧ Forall (λ s, is_finite s = true ∧ SFeqb s zero = false)
      [b64 500 0; b64 1 0; b64 1 (-1)].
Proof. split; by_entries. Qed.

Lemma ex_labels_regular :
  Forall (λ row, Forall binary64 row
                 ∧ Forall3 no_overflow_underflow row [b64 4000 0; b64 2 0; b64 0 0]
                     [b64 500 0; b64 1 0; b64 1 (-1)]) ex_labels.
Proof. unfold ex_labels. by_entries. Qed.

(** Witness of C2: the five label vectors of the instance *)
Lemma invert_normalize_close_witness :
  ∃ normalized,
    normalize 53 1024 [b64 4000 0; b64 2 0; b64 0 0] [b64 500 0; b64 1 0; b64 1 (-1)]
      ex_labels = Ok normalized ∧
    Forall2 (λ row' row,
               Forall3 (λ x' x m,
                          close x' x m
                          ∧ ∀ tol, (u64 * (Qabs (B2Q x) + 5 * Qabs (B2Q x - B2Q m))
                                    <= tol * Qabs (B2Q x))%Q →
                                   within_tolerance tol x x' = true)
                 row' row [b64 4000 0; b64 2 0; b64 0 0])
      (invert_with (SFmul 53 1024) (SFadd 53 1024)
         [b64 4000 0; b64 2 0; b64 0 0] [b64 500 0; b64 1 0; b64 1 (-1)] normalized)
      ex_labels.
Proof.
  apply (invert_normalize_close [b64 4000 0; b64 2 0; b64 0 0]
           [b64 500 0; b64 1 0; b64 1 (-1)] ex_labels).
  - reflexivity.
  - exact (proj1 ex_stats_binary64).
  - exact (proj2 ex_stats_binary64).
  - exact ex_labels_regular.
Defined.

(** Witness of C8 *)
Lemma propagate_needs_two_samples_witness :
  1 < 2 ∧
  propagate 53 1024 nat unit ex_predict ex_perturb mean64 std64 tt 1
    [b64 4000 0; b64 2 0; b64 0 0] [b64 500 0; b64 1 0; b64 1 (-1)]
    [b64 1 0; b64 2 0; b64 3 0; b64 4 0] 0
  = (inl InsufficientSamplesError, 0).
Proof.
  split; [lia|].
  apply (propagate_needs_two_samples 53 1024 nat unit ex_predict ex_perturb
           mean64 std64 tt 1). lia.
Defined.

(** ** Where the claims differ from the cell *)

(** C3 as claimed fails: the output reference set is not free of NaN
    when a label of a kept pair is NaN, since [clean] replaces NaN in the
    flux values only. *)
Lemma clean_nan_label_counterexample :
  ∃ spectra' labels',
    clean std64 [[S754_nan; b64 2 0]] [[S754_nan; b64 1 0; b64 0 0]]
      = Ok (spectra', labels') ∧
    spectra' = [[zero; b64 2 0]] ∧
    labels' = [[S754_nan; b64 1 0; b64 0 0]] ∧
    Exists (Exists (λ x, isnan x = true)) labels'.
Proof.
  eexists _, _. split; [vm_compute; reflexivity|].
  split; [vm_compute; reflexivity|]. split; [reflexivity|].
  apply Exists_cons_hd, Exists_cons_hd. reflexivity.
Qed.


(** C1: the cell at the failing input.  Of the five spectra of [ex_file]
    two are constant, so the cleaned reference set has N = 3 rows, of
    which [floor(0.9*N)] is 2; but [num_train] is [int(0.9*5) = 4], taken
    of the five rows of the file before the cleaning: Train has all 3
    cleaned rows and CrossValidation none. *)
Theorem split_at_failing_input :
  ∃ Sp Lb num_fluxes out st',
    reference_set 53 1024 std64 ex_stats ex_file = Ok (Sp, Lb, 4, num_fluxes) ∧
    length Sp = 3 ∧
    num_train_of (length Sp) = Ok 2%Z ∧
    cell 53 1024 std64 lcg ex_stats ex_file 7 = (Ok out, st') ∧
    length (train_spectra out) = 3 ∧
    length (cv_spectra out) = 0.
Proof.
  eexists _, _, _, _, _.
  split; [vm_compute; reflexivity|]. split; [reflexivity|].
  split; [vm_compute; reflexivity|]. split; [vm_compute; reflexivity|].
  split; reflexivity.
Qed.

(** C5 as claimed fails: the cell has no seed to repeat.  Run twice on the
    same input, the second run starting from the generator state the first
    one left, it puts a different row into CrossValidation. *)
Lemma split_not_reproducible_counterexample :
  ∃ out1 st1 out2 st2,
    cell 53 1024 std64 lcg ex_stats ex_file_varied 7 = (Ok out1, st1) ∧
    cell 53 1024 std64 lcg ex_stats ex_file_varied st1 = (Ok out2, st2) ∧
    length (cv_labels out1) = 1 ∧ length (cv_labels out2) = 1 ∧
    cv_labels out1 ≠ cv_labels out2.
Proof.
  eexists _, _, _, _.
  split; [vm_compute; reflexivity|]. split; [vm_compute; reflexivity|].
  split; [reflexivity|]. split; [reflexivity|].
  intros H. discriminate H.
Qed.

(** C6 as claimed fails: with a standard deviation of zero [normalize]
    raises nothing; it returns the quotients, +infinity for the label 4500
    and NaN for the label 4000 that equals the mean. *)
Lemma normalize_zero_std_counterexample :
  SFeqb zero zero = true ∧
  normalize 53 1024 [b64 4000 0] [zero] [[b64 4500 0]; [b64 4000 0]] =
  Ok [[S754_infinity false]; [S754_nan]].
Proof. split; reflexivity. Qed.

(** C2 as claimed fails in binary64: for the finite label 1.0, the mean
    1e20 and the standard deviation 1.0 the normalized label is -1e20 and
    its inverse is 0.0, not within any relative tolerance below 1 of 1.0. *)
Lemma roundtrip_binary64_counterexample :
  is_finite (b64 1 0) = true ∧
  SFeqb (b64 1 0) zero = false ∧
  normalize 53 1024 [b64 (10 ^ 20) 0] [b64 1 0] [[b64 1 0]] =
    Ok [[SFopp (b64 (10 ^ 20) 0)]] ∧
  invert_with (SFmul 53 1024) (SFadd 53 1024) [b64 (10 ^ 20) 0] [b64 1 0]
    [[SFopp (b64 (10 ^ 20) 0)]] = [[zero]] ∧
  within_tolerance (1 # 1000000000) (b64 1 0) zero = false ∧
  within_tolerance (999 # 1000) (b64 1 0) zero = false.
Proof. repeat split; vm_compute; reflexivity. Qed.

(** * Further properties of the cell *)

(** ** Facts on index arrays *)

Lemma elem_of_true_indices (i0 : nat) (keep : list bool) (i : nat) :
  i ∈ true_indices i0 keep ↔ i0 ≤ i ∧ keep !! (i - i0) = Some true.
Proof.
  revert i0. induction keep as [|b keep IH]; intros i0; simpl.
  - split; [by intros ?%elem_of_nil | by intros [_ ?]].
  - rewrite elem_of_app, IH. split.
    + intros [Hb|[Hle Hl]].
      * destruct b; [|by apply elem_of_nil in Hb].
        apply list_elem_of_singleton in Hb as ->. by rewrite Nat.sub_diag.
      * split; [lia|]. by replace (i - i0) with (S (i - S i0)) by lia.
    + intros [Hle Hl]. destruct (decide (i = i0)) as [->|Hne].
      * left. rewrite Nat.sub_diag in Hl. simpl in Hl. injection Hl as ->.
        by apply list_elem_of_singleton.
      * right. split; [lia|].
        by replace (i - i0) with (S (i - S i0)) in Hl by lia.
Qed.

Lemma getitem_Some {A} (a : list A) (i : nat) (x : A) :
  a !! i = Some x → getitem a i = Ok x.
Proof. intros H. unfold getitem. by rewrite H. Qed.

Lemma getitem_past_end {A} (a : list A) (i : nat) :
  length a ≤ i → getitem a i = Raise IndexError.
Proof. intros H. unfold getitem. by rewrite (lookup_ge_None_2 a i H). Qed.

Lemma take_rows_in_range {A} (a : list A) (indices : list nat) :
  Forall (λ i, i < length a) indices → ∃ a', take_rows a indices = Ok a'.
Proof.
  unfold take_rows. induction 1 as [|i indices Hi _ [a' IH]]; [by eexists|].
  destruct (lookup_lt_is_Some_2 a i Hi) as [x Hx].
  exists (x :: a'). cbn [mapM]. rewrite (getitem_Some a i x Hx).
  rewrite result_bind_ok, IH. done.
Qed.

Lemma take_rows_out_of_range {A} (a : list A) (indices : list nat) :
  Exists (λ i, length a ≤ i) indices → take_rows a indices = Raise IndexError.
Proof.
  unfold take_rows. induction 1 as [i indices Hi|i indices _ IH]; cbn [mapM].
  - by rewrite (getitem_past_end a i Hi).
  - rewrite IH. destruct (getitem a i) as [x|e] eqn:Hg; [done|].
    unfold getitem in Hg. destruct (a !! i); [congruence|].
    by injection Hg as <-.
Qed.

Lemma select_all {A} (keep : list bool) (a : list A) :
  Forall (λ b, b = true) keep → length a ≤ length keep → select keep a = a.
Proof.
  intros H. revert a. induction H as [|b keep -> _ IH]; intros a Hlen.
  - destruct a; [done | simpl in Hlen; lia].
  - destruct a as [|x a]; [done|]. simpl in Hlen. cbn [select]. simpl.
    f_equal. apply IH. lia.
Qed.

Lemma elem_of_select_zip {A B} (keep : list bool) (a : list A) (b : list B)
    (j : nat) (x : A) (y : B) :
  select keep a !! j = Some x → select keep b !! j = Some y →
  length a = length b →
  ∃ i, keep !! i = Some true ∧ a !! i = Some x ∧ b !! i = Some y.
Proof.
  revert a b j. induction keep as [|k keep IH]; intros a b j Hx Hy Hlen; [done|].
  destruct a as [|x0 a]; [done|]. destruct b as [|y0 b]; [done|].
  simpl in Hlen. cbn [select] in Hx, Hy. destruct k; simpl in Hx, Hy.
  - destruct j as [|j]; simpl in Hx, Hy.
    + injection Hx as ->. injection Hy as ->. by exists 0.
    + destruct (IH a b j Hx Hy ltac:(lia)) as (i & ? & ? & ?). by exists (S i).
  - destruct (IH a b j Hx Hy ltac:(lia)) as (i & ? & ? & ?). by exists (S i).
Qed.

Lemma nan_to_zero_id (spectra : matrix) :
  Forall (Forall (λ x, isnan x = false)) spectra → nan_to_zero spectra = spectra.
Proof.
  intros H. rewrite nan_to_zero_map.
  induction H as [|row spectra Hrow _ IH]; [done|]. cbn [map]. f_equal; [|done].
  induction Hrow as [|x row Hx _ IHrow]; [done|]. cbn [map]. f_equal; [|done].
  unfold fix_nan. by rewrite Hx.
Qed.

(** ** Cleaning: failure, fixed points *)

Section CleanExtras.

Variable np_std : vector → float.

Lemma clean_unfold (spectra labels : matrix) :
  clean np_std spectra labels =
  match take_rows labels (true_indices 0 (keep_mask np_std spectra)) with
  | Ok labels' =>
      Ok (select (keep_mask np_std spectra) (nan_to_zero spectra), labels')
  | Raise e => Raise e
  end.
Proof.
  unfold clean.
  assert (map (map (λ s, ne s zero)) (reshape_col (map np_std (nan_to_zero spectra)))
          = reshape_col (keep_mask np_std spectra)) as ->.
  { unfold reshape_col, keep_mask. by rewrite !map_map. }
  rewrite np_where_col.
  rewrite (take_rows_select (nan_to_zero spectra))
    by (by rewrite length_keep_mask, length_nan_to_zero).
  rewrite result_bind_ok.
  by destruct (take_rows labels (true_indices 0 (keep_mask np_std spectra))).
Qed.

Lemma Forall_select_map {A} (f : A → bool) (a : list A) :
  Forall (λ x, f x = true) (select (map f a) a).
Proof.
  induction a as [|x a IH]; [constructor|]. cbn [map select].
  destruct (f x) eqn:Hf; simpl; [by constructor | done].
Qed.

(** X1.  [clean] can fail in one way only: with IndexError, and exactly
    when a spectrum it keeps has an index at or past the end of the labels
    (the labels are shorter than the spectra).  Whenever every kept index
    is within the labels it returns, with as many labels as spectra. *)
Theorem clean_fails_only_past_labels (spectra labels : matrix) :
  (clean np_std spectra labels = Raise IndexError ↔
     ∃ i, keep_mask np_std spectra !! i = Some true ∧ length labels ≤ i)
  ∧ ((∀ i, keep_mask np_std spectra !! i = Some true → i < length labels) ↔
       ∃ spectra' labels',
         clean np_std spectra labels = Ok (spectra', labels')
         ∧ length spectra' = length labels')
  ∧ (∀ e, clean np_std spectra labels = Raise e → e = IndexError).
Proof.
  rewrite clean_unfold.
  set (indices := true_indices 0 (keep_mask np_std spectra)).
  assert (∀ i, i ∈ indices ↔ keep_mask np_std spectra !! i = Some true) as Hin.
  { intros i. unfold indices. rewrite elem_of_true_indices, Nat.sub_0_r.
    split; [by intros [_ ?] | intros ?; split; [lia | done]]. }
  destruct (decide (Forall (λ i, i < length labels) indices)) as [Hall|Hnot].
  - destruct (take_rows_in_range labels indices Hall) as [labels' Hl].
    rewrite Hl. split; [|split].
    + split; [done|]. intros (i & Hi & Hle). apply Hin in Hi.
      rewrite Forall_forall in Hall. specialize (Hall i Hi). lia.
    + split; [|intros _ i Hi; rewrite Forall_forall in Hall; by apply Hall, Hin].
      intros _. eexists _, _. split; [done|].
      apply take_rows_Forall2, Forall2_length in Hl. rewrite <- Hl.
      assert (take_rows (nan_to_zero spectra) indices
              = Ok (select (keep_mask np_std spectra) (nan_to_zero spectra))) as Hs
        by (apply take_rows_select; by rewrite length_keep_mask, length_nan_to_zero).
      apply take_rows_Forall2, Forall2_length in Hs. done.
    + done.
  - pose proof Hnot as Hex. apply not_Forall_Exists in Hex; [|apply _].
    assert (Exists (λ i, length labels ≤ i) indices) as Hex'.
    { eapply Exists_impl; [exact Hex|]. intros i Hi. simpl in Hi. lia. }
    rewrite (take_rows_out_of_range labels indices Hex'). split; [|split].
    + split; [|done]. intros _. apply Exists_exists in Hex' as (i & Hi & Hle).
      exists i. split; [by apply Hin | done].
    + split; [|by intros (? & ? & ? & _)].
      intros Hall. exfalso. apply Hnot, Forall_forall. intros i Hi.
      by apply Hall, Hin.
    + by intros e [= <-].
Qed.

(** X2.  [clean] leaves a clean reference set as it is: when no flux value
    is NaN and no spectrum has a standard deviation of zero, it returns the
    spectra and the row-aligned labels unchanged. *)
Theorem clean_identity_on_clean (spectra labels : matrix) :
  length spectra = length labels →
  Forall (Forall (λ x, isnan x = false)) spectra →
  Forall (λ row, SFeqb (np_std row) zero = false) spectra →
  clean np_std spectra labels = Ok (spectra, labels).
Proof.
  intros Hlen Hnan Hstd.
  rewrite clean_select by lia.
  assert (Forall (λ b, b = true) (keep_mask np_std spectra)) as Hkeep.
  { unfold keep_mask. rewrite nan_to_zero_id by done.
    apply Forall_fmap. eapply Forall_impl; [exact Hstd|].
    intros row Hrow. simpl in *. unfold ne. by rewrite Hrow. }
  rewrite !select_all; rewrite ?length_keep_mask, ?length_nan_to_zero; try done; try lia.
  by rewrite nan_to_zero_id.
Qed.

(** X3.  [clean] is idempotent: cleaning what it returned returns the same
    spectra and labels. *)
Theorem clean_idempotent (spectra labels spectra' labels' : matrix) :
  clean np_std spectra labels = Ok (spectra', labels') →
  clean np_std spectra' labels' = Ok (spectra', labels').
Proof.
  rewrite clean_unfold.
  destruct (take_rows labels _) as [l|e] eqn:Hl; [|done].
  intros [= <- <-].
  assert (take_rows (nan_to_zero spectra) (true_indices 0 (keep_mask np_std spectra))
          = Ok (select (keep_mask np_std spectra) (nan_to_zero spectra))) as Hs
    by (apply take_rows_select; by rewrite length_keep_mask, length_nan_to_zero).
  apply take_rows_Forall2, Forall2_length in Hl, Hs.
  set (s' := select (keep_mask np_std spectra) (nan_to_zero spectra)) in *.
  assert (Forall (Forall (λ x, isnan x = false)) s') as Hnan
    by apply Forall_select, nan_to_zero_no_nan.
  assert (Forall (λ row, ne (np_std row) zero = true) s') as Hne
    by apply Forall_select_map.
  rewrite clean_select by lia.
  assert (Forall (λ b, b = true) (keep_mask np_std s')) as Hkeep.
  { unfold keep_mask. rewrite nan_to_zero_id by done. by apply Forall_fmap. }
  rewrite !select_all; rewrite ?length_keep_mask, ?length_nan_to_zero; try done; try lia.
  by rewrite nan_to_zero_id.
Qed.

End CleanExtras.

(** ** The cell, traced to the rows of the file *)

Lemma lookup_label_rows (F : h5file) (i : nat) (row : vector) :
  label_rows F !! i = Some row →
  ∃ t g f, TEFF F !! i = Some t ∧ LOGG F !! i = Some g ∧ FE_H F !! i = Some f
           ∧ row = [t; g; f].
Proof.
  unfold label_rows. intros H.
  apply lookup_zip_with_Some in H as (t & yz & -> & Ht & Hyz).
  apply lookup_zip_with_Some in Hyz as (g & f & -> & Hg & Hf).
  by exists t, g, f.
Qed.

Section CellExtras.

Variables prec emax : Z.
Variable np_std : vector → float.
Variable RandomState : Type.
Variable rk_interval : nat → RandomState → nat * RandomState.

(** The normalized label rows of the file *)
Let normalized (F : h5file) (mean std : vector) : matrix :=
  map (λ row, zip_with (SFdiv prec emax) (zip_with (SFsub prec emax) row mean) std)
    (label_rows F).

Lemma reference_set_explicit (mean std : vector) (F : h5file) :
  wf_input [mean; std] F →
  ∃ k,
    num_train_of (length (spectrum F)) = Ok k ∧
    reference_set prec emax np_std [mean; std] F =
    Ok (select (keep_mask np_std (spectrum F)) (nan_to_zero (spectrum F)),
        select (keep_mask np_std (spectrum F)) (normalized F mean std),
        Z.to_nat k, shape1 (spectrum F)).
Proof.
  intros [(mean' & std' & [= <- <-] & Hmean & Hstd) Ht Hl Hf _ Hsize].
  destruct (column_stack3_same_length (TEFF F) (LOGG F) (FE_H F))
    as (rows & Hrows & Hlen & Hthree); [lia..|].
  assert (rows = label_rows F) as ->.
  { unfold column_stack3 in Hrows. rewrite decide_True in Hrows by lia.
    by injection Hrows as <-. }
  destruct (num_train_of_total (length (spectrum F)) Hsize) as [k Hk].
  exists k. split; [exact Hk|].
  unfold reference_set. ok_step load_stats_two_rows. ok_step Hrows.
  unfold normalize.
  ok_step (normalize_with_same_length (SFsub prec emax) (SFdiv prec emax) 3
             mean std (label_rows F) Hmean Hstd Hthree).
  rewrite length_map, Hlen, Ht. ok_step Hk.
  rewrite clean_select by (rewrite length_map; lia). done.
Qed.

(** The cell on well-shaped input, with every returned pair traced to its
    row of the file *)
Lemma cell_traced (mean std : vector) (F : h5file) (st : RandomState) :
  wf_input [mean; std] F →
  ∃ out st' k,
    num_train_of (length (spectrum F)) = Ok k ∧
    cell prec emax np_std rk_interval [mean; std] F st = (Ok out, st') ∧
    length (train_spectra out) + length (cv_spectra out) =
      length (filter (λ row, SFeqb (np_std row) zero = false) (nan_to_zero (spectrum F))) ∧
    length (train_spectra out) =
      Z.to_nat k `min`
      length (filter (λ row, SFeqb (np_std row) zero = false) (nan_to_zero (spectrum F))) ∧
    Forall2 (from_file_row prec emax np_std F mean std)
      (train_spectra out) (train_labels out) ∧
    Forall2 (from_file_row prec emax np_std F mean std)
      (cv_spectra out) (cv_labels out).
Proof.
  intros Hwf.
  destruct (cell_by_identifiers prec emax np_std RandomState rk_interval
              [mean; std] F st Hwf)
    as (Sp & Lb & k & Hk & Href & HSpLb & HSle & Hcell).
  destruct (reference_set_explicit mean std F Hwf) as (k' & Hk' & Href').
  rewrite Href' in Href. injection Href as HSp HLb _.
  set (mask := keep_mask np_std (spectrum F)) in *.
  set (p := (shuffle rk_interval (seq 0 (length Sp)) st).1) in *.
  assert (p ≡ₚ seq 0 (length Sp)) as Hp by apply shuffle_perm.
  assert (length p = length Sp) as Hlp by (by rewrite Hp, length_seq).
  assert (Forall (λ i, i < length Sp) p) as Hlt.
  { rewrite Hp. apply Forall_forall. intros i Hi. apply elem_of_seq in Hi. lia. }
  assert (length Sp = length (filter (λ row, SFeqb (np_std row) zero = false)
                                (nan_to_zero (spectrum F)))) as HN.
  { rewrite <- HSp. unfold mask, keep_mask. rewrite select_map_filter. f_equal.
    apply list_filter_iff. intros row. unfold ne.
    by destruct (SFeqb (np_std row) zero). }
  assert (length (normalized F mean std) = length (nan_to_zero (spectrum F))) as Hnl.
  { unfold normalized, label_rows.
    rewrite length_map, !length_zip_with, length_nan_to_zero.
    destruct Hwf as [_ Ht Hl Hf _ _]. lia. }
  assert (∀ q, Forall (λ i, i < length Sp) q →
            Forall2 (from_file_row prec emax np_std F mean std)
              (reshape_channels ((λ i, Sp !!! i) <$> q)) ((λ i, Lb !!! i) <$> q)) as Hq.
  { intros q Hqlt. unfold reshape_channels. change map with (@fmap list _) at 1.
    rewrite <- list_fmap_compose. apply Forall2_fmap, Forall_Forall2_diag.
    eapply Forall_impl; [exact Hqlt|]. intros j Hj. simpl in Hj |- *.
    destruct (lookup_lt_is_Some_2 Sp j Hj) as [s Hs].
    destruct (lookup_lt_is_Some_2 Lb j ltac:(lia)) as [l Hl].
    rewrite (list_lookup_total_correct _ _ _ Hs), (list_lookup_total_correct _ _ _ Hl).
    rewrite <- HSp in Hs. rewrite <- HLb in Hl.
    destruct (elem_of_select_zip mask _ _ j s l Hs Hl ltac:(lia))
      as (i & Hmask & Hsi & Hli).
    rewrite nan_to_zero_map, list_lookup_fmap in Hsi.
    destruct (spectrum F !! i) as [raw|] eqn:Hraw; [|done].
    simpl in Hsi. injection Hsi as <-.
    unfold normalized in Hli. rewrite list_lookup_fmap in Hli.
    destruct (label_rows F !! i) as [row|] eqn:Hrow; [|done].
    simpl in Hli. injection Hli as <-.
    destruct (lookup_label_rows F i row Hrow) as (t & g & f & Ht & Hg & Hf & ->).
    exists i, raw, t, g, f. repeat (split; [done|]). split; [|done].
    unfold mask, keep_mask in Hmask. rewrite nan_to_zero_map in Hmask.
    rewrite !list_lookup_fmap, Hraw in Hmask. simpl in Hmask.
    injection Hmask as Hmask. unfold ne in Hmask.
    by destruct (SFeqb (np_std (map fix_nan raw)) zero). }
  eexists _, _, k. split; [exact Hk|]. split; [exact Hcell|].
  cbn [train_spectra train_labels cv_spectra cv_labels].
  split; [|split; [|split]].
  - unfold reshape_channels.
    rewrite !length_map, ?length_fmap, length_take, length_drop, Hlp. lia.
  - unfold reshape_channels.
    rewrite !length_map, ?length_fmap, length_take, Hlp. lia.
  - apply Hq. by apply Forall_take.
  - apply Hq. by apply Forall_drop.
Qed.

(** X4.  On well-shaped input, with N the number of spectra whose standard
    deviation (after the NaN replacement) is not zero, the cell returns
    [min(int(0.9*len(labels)), N)] training pairs and the other N pairs for
    cross-validation; [len(labels)] counts the rows of the file, removed
    ones included. *)
Theorem split_sizes (mean std : vector) (F : h5file) (st : RandomState) :
  wf_input [mean; std] F →
  ∃ out st' k,
    num_train_of (length (spectrum F)) = Ok k ∧
    cell prec emax np_std rk_interval [mean; std] F st = (Ok out, st') ∧
    let N := length (filter (λ row, SFeqb (np_std row) zero = false)
                       (nan_to_zero (spectrum F))) in
    length (train_spectra out) = Z.to_nat k `min` N ∧
    length (train_labels out) = Z.to_nat k `min` N ∧
    length (cv_spectra out) = N - Z.to_nat k ∧
    length (cv_labels out) = N - Z.to_nat k.
Proof.
  intros Hwf.
  destruct (cell_traced mean std F st Hwf)
    as (out & st' & k & Hk & Hcell & Hsum & Htrain & Ht & Hc).
  exists out, st', k. split; [exact Hk|]. split; [exact Hcell|].
  apply Forall2_length in Ht, Hc. simpl. lia.
Qed.

(** X5.  On well-shaped input every pair of Train and of CrossValidation
    comes from one row of the file: its spectrum is the flux of that row
    with NaN replaced by 0.0, of nonzero standard deviation, and its label
    vector is ((TEFF, LOGG, FE_H) - mean) / std of the same row. *)
Theorem returned_pairs_come_from_file (mean std : vector) (F : h5file)
    (st : RandomState) :
  wf_input [mean; std] F →
  ∃ out st',
    cell prec emax np_std rk_interval [mean; std] F st = (Ok out, st') ∧
    Forall2 (from_file_row prec emax np_std F mean std)
      (train_spectra out) (train_labels out) ∧
    Forall2 (from_file_row prec emax np_std F mean std)
      (cv_spectra out) (cv_labels out).
Proof.
  intros Hwf.
  destruct (cell_traced mean std F st Hwf)
    as (out & st' & k & _ & Hcell & _ & _ & Ht & Hc).
  by exists out, st'.
Qed.

Lemma from_file_row_shape (mean std : vector) (F : h5file)
    (sp : list (list float)) (l : vector) :
  wf_input [mean; std] F →
  from_file_row prec emax np_std F mean std sp l →
  length sp = shape1 (spectrum F)
  ∧ Forall (λ channel, length channel = 1 ∧ Forall (λ x, isnan x = false) channel) sp
  ∧ length l = 3.
Proof.
  intros [(mean' & std' & [= <- <-] & Hmean & Hstd) _ _ _ Hrect _]
    (i & raw & t & g & f & Hraw & _ & _ & _ & -> & _ & ->).
  split; [|split].
  - rewrite !length_map. exact (Forall_lookup_1 _ _ _ _ Hrect Hraw).
  - apply Forall_fmap, Forall_fmap, Forall_true. intros x. simpl.
    split; [done|]. constructor; [apply fix_nan_not_nan | constructor].
  - rewrite !length_zip_with, Hmean, Hstd. done.
Qed.

(** X6.  On well-shaped input the arrays the cell returns have the shapes
    the network is built for and hold no NaN flux: every spectrum of Train
    and of CrossValidation is [num_fluxes] channel vectors of one value
    each, none of them NaN, and every label vector has three entries, one
    label vector for each spectrum. *)
Theorem returned_arrays_fit_the_network (mean std : vector) (F : h5file)
    (st : RandomState) :
  wf_input [mean; std] F →
  ∃ out st',
    cell prec emax np_std rk_interval [mean; std] F st = (Ok out, st') ∧
    Forall (λ sp, length sp = shape1 (spectrum F)
                  ∧ Forall (λ channel, length channel = 1
                                       ∧ Forall (λ x, isnan x = false) channel) sp)
      (train_spectra out ++ cv_spectra out) ∧
    Forall (λ l, length l = 3) (train_labels out ++ cv_labels out) ∧
    length (train_spectra out) = length (train_labels out) ∧
    length (cv_spectra out) = length (cv_labels out).
Proof.
  intros Hwf.
  destruct (cell_traced mean std F st Hwf)
    as (out & st' & k & _ & Hcell & _ & _ & Ht & Hc).
  exists out, st'. split; [exact Hcell|].
  assert (∀ ss ls, Forall2 (from_file_row prec emax np_std F mean std) ss ls →
            Forall (λ sp, length sp = shape1 (spectrum F)
                          ∧ Forall (λ channel, length channel = 1
                                       ∧ Forall (λ x, isnan x = false) channel) sp) ss
            ∧ Forall (λ l, length l = 3) ls) as Hshape.
  { intros ss ls H. induction H as [|sp l ss ls Hrow _ [IH1 IH2]]; [done|].
    destruct (from_file_row_shape mean std F sp l Hwf Hrow) as (? & ? & ?).
    split; by constructor. }
  destruct (Hshape _ _ Ht) as [Hts Htl]. destruct (Hshape _ _ Hc) as [Hcs Hcl].
  split; [by apply Forall_app|]. split; [by apply Forall_app|].
  split; by eapply Forall2_length.
Qed.

(** *** Failures before the shuffle *)

(** X7.  The cell fails before it shuffles, and leaves the generator as it
    was, when the stored statistics have fewer than two rows (IndexError
    from [mean_and_std[0]] or [mean_and_std[1]]) and when, with two rows
    or more, the three label columns differ in length (ValueError from
    [np.column_stack]). *)
Theorem cell_rejects_bad_input (mean_and_std : matrix) (F : h5file) (st : RandomState) :
  (length mean_and_std < 2 →
     cell prec emax np_std rk_interval mean_and_std F st = (Raise IndexError, st))
  ∧ (2 ≤ length mean_and_std →
     ¬ (length (TEFF F) = length (LOGG F) ∧ length (LOGG F) = length (FE_H F)) →
     cell prec emax np_std rk_interval mean_and_std F st = (Raise ValueError, st)).
Proof.
  split.
  - intros Hlen. unfold cell, reference, reference_set, load_stats.
    destruct mean_and_std as [|r0 [|r1 ms]]; [done | done | simpl in Hlen; lia].
  - intros Hlen Hne. unfold cell, reference, reference_set, load_stats.
    destruct mean_and_std as [|r0 [|r1 ms]]; [simpl in Hlen; lia..|].
    unfold getitem. cbn [lookup list_lookup]. rewrite !result_bind_ok.
    cbv beta iota. unfold column_stack3. rewrite decide_False by done. done.
Qed.

End CellExtras.

(** ** Normalisation: which statistics broadcast *)

Lemma broadcast_row_three {T} (op : T → T → T) (row v : list T) :
  length row = 3 →
  broadcast_row op row v =
  if decide (length v = 3) then Ok (zip_with op row v)
  else match v with
       | [b] => Ok (map (λ a, op a b) row)
       | _ => Raise ValueError
       end.
Proof.
  intros Hrow. unfold broadcast_row. rewrite Hrow.
  destruct (decide (3 = length v)) as [Hv|Hv].
  - by rewrite decide_True.
  - rewrite decide_False by done.
    destruct v as [|b [|b' v]]; [|done|];
      by destruct row as [|? [|? [|? [|? ?]]]].
Qed.

Lemma broadcast_three_ok {T} (op : T → T → T) (a : list (list T)) (v : list T) :
  Forall (λ row, length row = 3) a →
  length v = 3 ∨ length v = 1 →
  ∃ out, broadcast op a v = Ok out ∧ length out = length a
         ∧ Forall (λ row, length row = 3) out.
Proof.
  intros Ha Hv. unfold broadcast.
  induction Ha as [|row a Hrow _ (out & IH & Hlen & Hout)]; [by exists []|].
  cbn [mapM]. rewrite broadcast_row_three by done.
  destruct Hv as [Hv|Hv].
  - rewrite decide_True by done. rewrite result_bind_ok, IH.
    eexists. split; [done|]. split; [simpl; lia|].
    constructor; [|done]. rewrite length_zip_with. lia.
  - rewrite decide_False by lia. destruct v as [|b [|? ?]]; try done.
    rewrite result_bind_ok, IH.
    eexists. split; [done|]. split; [simpl; lia|].
    constructor; [|done]. by rewrite length_map.
Qed.

Lemma broadcast_three_fail {T} (op : T → T → T) (a : list (list T)) (v : list T) :
  a ≠ [] → Forall (λ row, length row = 3) a →
  ¬ (length v = 3 ∨ length v = 1) →
  broadcast op a v = Raise ValueError.
Proof.
  intros Hne Ha Hv. unfold broadcast.
  destruct Ha as [|row a Hrow _]; [done|].
  cbn [mapM]. rewrite broadcast_row_three by done.
  rewrite decide_False by tauto.
  destruct v as [|b [|? ?]]; [done| |done]. simpl in Hv. tauto.
Qed.

(** X8.  For the label rows of the cell (three columns, at least one row)
    [normalize] returns exactly when the means and the standard deviations
    each have three entries or one entry (which numpy broadcasts to the
    three columns); the result then has the shape of the labels.  With any
    other length it raises ValueError. *)
Theorem normalize_broadcasts_three_or_one (prec emax : Z)
    (mean_labels std_labels : vector) (lb : matrix) :
  lb ≠ [] → Forall (λ row, length row = 3) lb →
  ((length mean_labels = 3 ∨ length mean_labels = 1)
   ∧ (length std_labels = 3 ∨ length std_labels = 1) →
   ∃ out, normalize prec emax mean_labels std_labels lb = Ok out
          ∧ length out = length lb ∧ Forall (λ row, length row = 3) out)
  ∧ (¬ ((length mean_labels = 3 ∨ length mean_labels = 1)
        ∧ (length std_labels = 3 ∨ length std_labels = 1)) →
     normalize prec emax mean_labels std_labels lb = Raise ValueError).
Proof.
  intros Hne Hlb. unfold normalize, normalize_with. split.
  - intros [Hm Hs].
    destruct (broadcast_three_ok (SFsub prec emax) lb mean_labels Hlb Hm)
      as (d & Hd & Hdlen & Hd3).
    rewrite Hd, result_bind_ok.
    destruct (broadcast_three_ok (SFdiv prec emax) d std_labels Hd3 Hs)
      as (out & Hout & Holen & Ho3).
    exists out. split; [done|]. split; [lia | done].
  - intros Hnot.
    destruct (decide (length mean_labels = 3 ∨ length mean_labels = 1)) as [Hm|Hm].
    + destruct (broadcast_three_ok (SFsub prec emax) lb mean_labels Hlb Hm)
        as (d & Hd & Hdlen & Hd3).
      rewrite Hd, result_bind_ok.
      apply broadcast_three_fail; [|done|tauto].
      intros ->. destruct lb; [done | simpl in Hdlen; lia].
    + by rewrite (broadcast_three_fail _ lb mean_labels Hne Hlb Hm).
Qed.

(** ** The training count *)

(** X9.  For fewer than 2^63 label rows [int(0.9*len(labels))], computed in
    binary64, raises nothing and lies between 0 and the number of rows, so
    that the slices [0:num_train] and [num_train:] are taken at an index
    of the array. *)
Theorem num_train_in_range (len_labels : nat) :
  (Z.of_nat len_labels < 2 ^ 63)%Z →
  ∃ num_train, num_train_of len_labels = Ok num_train
               ∧ (0 ≤ num_train ≤ Z.of_nat len_labels)%Z.
Proof.
  intros Hsize.
  destruct (num_train_of_total len_labels Hsize) as [k Hk].
  exists k. split; [exact Hk|]. exact (num_train_of_le len_labels k Hk).
Qed.

(** * The network *)

Lemma broadcast_dim_same (i : N) : broadcast_dim i i = Ok i.
Proof. unfold broadcast_dim. by repeat case_decide; subst. Qed.

Lemma elemwise_shape_same (a : shape) : elemwise_shape a a = Ok a.
Proof.
  induction a as [|i a IH]; [done|].
  cbn [elemwise_shape]. by rewrite broadcast_dim_same, result_bind_ok, IH.
Qed.

Lemma pooled_steps (steps pool_size : N) :
  (0 < pool_size ≤ steps → (steps - pool_size) / pool_size + 1 = steps / pool_size)%N.
Proof.
  intros H. replace steps with ((steps - pool_size) + 1 * pool_size)%N at 2 by lia.
  rewrite N.div_add by lia. done.
Qed.

Lemma keras_bind_run {A B} (m : keras A) (f : A → keras B) (w w' : weights) (a : A) :
  m w = Ok (a, w') → (m ≫= f) w = f a w'.
Proof. intros H. unfold mbind, keras_bind. by rewrite H. Qed.

Lemma keras_bind_raise {A B} (m : keras A) (f : A → keras B) (w : weights) (e : exn) :
  m w = Raise e → (m ≫= f) w = Raise e.
Proof. intros H. unfold mbind, keras_bind. by rewrite H. Qed.

Lemma Conv1D_run (batch_axes : bool) (filters kernel_size : N) (use_bias : bool)
    (steps channels : N) (w : weights) :
  Conv1D batch_axes filters kernel_size use_bias [steps; channels] w
  = Ok ([steps; filters],
        {| trainable := trainable w
             + (kernel_size * channels * filters + (if use_bias then filters else 0));
           non_trainable := non_trainable w + 0 |}%N).
Proof. reflexivity. Qed.

Lemma Reshape_run (target_shape x : shape) (w : weights) :
  size x = size target_shape → Reshape target_shape x w = Ok (target_shape, w).
Proof. intros H. unfold Reshape. by rewrite decide_True. Qed.

Lemma Reshape_raise (target_shape x : shape) (w : weights) :
  size x ≠ size target_shape → Reshape target_shape x w = Raise ValueError.
Proof. intros H. unfold Reshape. by rewrite decide_False. Qed.

Lemma Add_run (x : shape) (w : weights) : Add (x, x) w = Ok (x, w).
Proof. unfold Add, lift. simpl. by rewrite elemwise_shape_same. Qed.

Lemma AveragePooling1D_run (pool_size steps channels : N) (w : weights) :
  (0 < pool_size ≤ steps)%N →
  AveragePooling1D pool_size [steps; channels] w = Ok ([steps / pool_size; channels]%N, w).
Proof.
  intros H. unfold AveragePooling1D.
  by rewrite decide_True, pooled_steps.
Qed.

Lemma getitem_run {A} (a : list A) (i : nat) (x : A) (w : weights) :
  a !! i = Some x → lift (getitem a i) w = Ok (x, w).
Proof. intros H. unfold lift, getitem. by rewrite H. Qed.

(** One layer call that returns *)
Ltac layer :=
  erewrite keras_bind_run;
  [| first [ apply Conv1D_run
           | apply Reshape_run; simpl; lia
           | apply Add_run
           | apply AveragePooling1D_run; assumption
           | apply getitem_run; eassumption
           | reflexivity ] ];
  cbn [trainable non_trainable].

Section NetworkFacts.

Variables num_fluxes num_labels num_filters filter_length pool_length : N.
Variable num_hidden : list N.
Variable batch_axes : bool.

(** X10.  With a pooling window that fits the spectrum and two hidden
    sizes, [build_model] accepts an input of [num_fluxes] steps, of any
    number of channels: every Reshape and both Add layers fit, the output
    has [num_labels] entries, the first Dense layer reads
    [num_fluxes / pool_length * num_filters] entries, and the weights are
    those of the five convolutions, the five instance normalisations, the
    three Dense layers and the two batch normalisations, of which only the
    moving statistics of the batch normalisations are not trained. *)
Theorem build_model_summary (channels h0 h1 : N) :
  (0 < pool_length ≤ num_fluxes)%N →
  Forall (λ n, 0 < n)%N [channels; num_labels; num_filters; filter_length; h0; h1] →
  num_hidden !! 0 = Some h0 → num_hidden !! 1 = Some h1 →
  built (build_model num_fluxes num_labels num_filters filter_length pool_length
           num_hidden batch_axes (Input [num_fluxes; channels]))
  = Ok {| input_shape := [num_fluxes; channels];
          output_shape := [num_labels];
          trainable_params :=
            (channels + 2
             + (filter_length * 1 * num_filters + num_filters) + 2
             + 3 * (filter_length * num_filters * num_filters + num_filters + 2)
             + (num_fluxes / pool_length * num_filters * h0 + h0) + 2 * h0
             + (h0 * h1 + h1) + 2 * h1
             + (h1 * num_labels + num_labels))%N;
          non_trainable_params := (2 * h0 + 2 * h1)%N |}.
Proof.
  intros Hpool _ H0 H1.
  unfold built, build_model, Input.
  do 35 layer.
  unfold Model. cbn [trainable non_trainable removelast app size foldr].
  f_equal. f_equal; lia.
Qed.

(** X11.  [build_model] raises ValueError on every input of at most two
    axes (of known sizes) that is not of [num_fluxes] steps: an input of
    fewer than two axes at the first convolution, one of another number of
    steps at [Reshape((num_fluxes,1,1))]. *)
Theorem build_model_rejects_other_shapes (input_spec : shape) :
  length input_spec ≤ 2 →
  (∀ channels, input_spec ≠ [num_fluxes; channels]) →
  built (build_model num_fluxes num_labels num_filters filter_length pool_length
           num_hidden batch_axes (Input input_spec))
  = Raise ValueError.
Proof.
  intros Hrank Hne. unfold built, build_model, Input.
  destruct input_spec as [|steps [|channels [|? ?]]];
    [by (erewrite keras_bind_raise; [|reflexivity]).. | | simpl in Hrank; lia].
  do 2 layer.
  erewrite keras_bind_raise; [done|].
  apply Reshape_raise. simpl. intros Hsize.
  apply (Hne channels). f_equal. lia.
Qed.

(** X12.  The two test models.  [build_normalizer_model] accepts every
    input of two axes and returns one channel per step; on the inputs of
    at most two axes (of known sizes) [build_upsample_model] returns
    exactly on those of [num_fluxes] steps, with [num_filters] columns per
    step.  Both hold the weights of the input convolution and of one
    instance normalisation. *)
Theorem test_models_summary (input_spec : shape) (m : summary) :
  (∀ steps channels, input_spec = [steps; channels] →
     built (build_normalizer_model batch_axes (Input input_spec))
     = Ok {| input_shape := input_spec; output_shape := [steps; 1]%N;
             trainable_params := (channels + 2)%N; non_trainable_params := 0 |})
  ∧ (length input_spec ≤ 2 →
     built (build_upsample_model num_fluxes num_filters batch_axes (Input input_spec)) = Ok m
     ↔ ∃ channels, input_spec = [num_fluxes; channels]
         ∧ m = {| input_shape := input_spec; output_shape := [num_fluxes; num_filters];
                  trainable_params := (channels + 2)%N; non_trainable_params := 0 |}).
Proof.
  split.
  - intros steps channels ->. unfold built, build_normalizer_model, Input.
    do 2 layer. unfold Model. cbn [trainable non_trainable].
    f_equal. f_equal; lia.
  - intros Hrank. unfold built, build_upsample_model, Input. split.
    + destruct input_spec as [|steps [|channels [|? ?]]];
        [by (erewrite keras_bind_raise; [|reflexivity]).. | | simpl in Hrank; lia].
      do 2 layer.
      destruct (decide (steps = num_fluxes)) as [->|Hne].
      * do 3 layer. unfold Model. cbn [trainable non_trainable].
        intros [= <-]. exists channels. split; [done|]. f_equal; lia.
      * erewrite keras_bind_raise; [done|].
        apply Reshape_raise. simpl. lia.
    + intros (channels & -> & ->).
      do 5 layer. unfold Model. cbn [trainable non_trainable].
      f_equal. f_equal; lia.
Qed.

End NetworkFacts.

(** ** The values of the upsampling branch *)

Lemma concat_singletons {T} (s : list T) : concat (map (λ v, [v]) s) = s.
Proof. induction s as [|v s IH]; [done|]. simpl. by rewrite IH. Qed.

Lemma groups_singletons {T} (s : list T) :
  groups (length s) 1 s = map (λ v, [v]) s.
Proof.
  rewrite <- (concat_singletons s) at 2.
  rewrite <- (length_map (λ v, [v]) s).
  apply groups_concat. by apply Forall_map, Forall_true.
Qed.

Lemma repeat_elements_once {T} (x : list T) : repeat_elements 1 x = x.
Proof.
  unfold repeat_elements. induction x as [|v x IH]; [done|].
  change ((v :: x) ≫= replicate 1) with ([v] ++ (x ≫= replicate 1)).
  by rewrite IH.
Qed.

Lemma concat_bind {T U} (f : T → list U) (s : list T) :
  concat (map f s) = s ≫= f.
Proof.
  induction s as [|v s IH]; [done|].
  change ((v :: s) ≫= f) with (f v ++ (s ≫= f)). simpl. by rewrite IH.
Qed.

Lemma length_bind_replicate {T} (k : nat) (s : list T) :
  length (s ≫= replicate k) = length s * k.
Proof.
  induction s as [|v s IH]; [done|].
  change ((v :: s) ≫= replicate k) with (replicate k v ++ (s ≫= replicate k)).
  rewrite length_app, length_replicate, IH. simpl. lia.
Qed.

(** X13.  The upsampling branch of [build_model] and
    [build_upsample_model] repeats every normalised flux [num_filters]
    times: from a sample of one channel per step it returns, for a sample
    of [num_fluxes] steps, the rows of [num_filters] copies of each flux,
    in the order of the steps; a sample of another length raises
    ValueError. *)
Theorem repeated_spec_repeats_each_flux {T} (num_fluxes num_filters : nat)
    (fluxes : list T) :
  0 < num_filters →
  repeated_spec num_fluxes num_filters (map (λ v, [v]) fluxes)
  = if decide (length fluxes = num_fluxes)
    then Ok (map (replicate num_filters) fluxes)
    else Raise ValueError.
Proof.
  intros _. unfold repeated_spec, reshape3.
  rewrite concat_singletons.
  destruct (decide (length fluxes = num_fluxes)) as [<-|Hne].
  - rewrite decide_True by lia. rewrite result_bind_ok.
    rewrite groups_singletons. unfold resize_images.
    rewrite repeat_elements_once, !map_map.
    rewrite (map_ext _ (λ v, replicate num_filters [v])).
    2:{ intros v. unfold groups, repeat_elements. cbn. by rewrite app_nil_r. }
    rewrite concat_bind.
    assert (concat (fluxes ≫= (λ v, replicate num_filters [v]))
            = concat (map (replicate num_filters) fluxes)) as ->.
    { induction fluxes as [|v s IH]; [done|].
      change ((v :: s) ≫= (λ v, replicate num_filters [v]))
        with (replicate num_filters [v] ++ (s ≫= (λ v, replicate num_filters [v]))).
      rewrite concat_app, IH. cbn. f_equal.
      clear. induction num_filters as [|k IHk]; [done|]. cbn. by rewrite IHk. }
    unfold reshape2. rewrite concat_bind, length_bind_replicate.
    rewrite decide_True by done.
    rewrite <- concat_bind. rewrite <- (length_map (replicate num_filters) fluxes).
    rewrite groups_concat; [done|].
    apply Forall_map, Forall_true. intros v. by rewrite length_replicate.
  - by rewrite decide_False by lia.
Qed.

(** * The further properties on the binary64 instance *)

(** Goals on concrete rows, entry by entry *)
Ltac by_rows :=
  repeat first [ apply Forall_nil_2 | apply Forall_cons_2 | (vm_compute; reflexivity) ].

(** Witness of X2: the four varied spectra pass unchanged *)
Lemma clean_identity_on_clean_witness :
  clean std64 (spectrum ex_file_varied) (label_rows ex_file_varied)
  = Ok (spectrum ex_file_varied, label_rows ex_file_varied).
Proof.
  apply (clean_identity_on_clean std64 (spectrum ex_file_varied) (label_rows ex_file_varied)).
  - reflexivity.
  - by_rows.
  - by_rows.
Defined.

(** Witness of X3 *)
Lemma clean_idempotent_witness :
  ∃ spectra' labels',
    clean std64 (spectrum ex_file) ex_labels = Ok (spectra', labels')
    ∧ clean std64 spectra' labels' = Ok (spectra', labels').
Proof.
  destruct (clean std64 (spectrum ex_file) ex_labels) as [[s l]|e] eqn:Hclean.
  - exists s, l.
    exact (conj eq_refl (clean_idempotent std64 (spectrum ex_file) ex_labels s l Hclean)).
  - vm_compute in Hclean. discriminate Hclean.
Defined.

(** Witness of X4: five rows of which three are kept, [int(0.9*5) = 4] *)
Lemma split_sizes_witness :
  wf_input ex_stats ex_file ∧
  ∃ out st',
    cell 53 1024 std64 lcg ex_stats ex_file 7 = (Ok out, st') ∧
    length (train_spectra out) = 3 ∧ length (cv_spectra out) = 0.
Proof.
  split; [exact ex_file_wf|].
  destruct (split_sizes 53 1024 std64 nat lcg _ _ ex_file 7 ex_file_wf)
    as (out & st' & k & Hk & Hcell & Ht & _ & Hc & _).
  vm_compute in Hk. injection Hk as <-.
  exists out, st'. split; [exact Hcell|]. split.
  - rewrite Ht. vm_compute. reflexivity.
  - rewrite Hc. vm_compute. reflexivity.
Defined.

(** Witness of X5 *)
Lemma returned_pairs_come_from_file_witness :
  wf_input ex_stats ex_file ∧
  ∃ out st',
    cell 53 1024 std64 lcg ex_stats ex_file 7 = (Ok out, st') ∧
    Forall2 (from_file_row 53 1024 std64 ex_file
               [b64 4000 0; b64 2 0; b64 0 0] [b64 500 0; b64 1 0; b64 1 (-1)])
      (train_spectra out) (train_labels out).
Proof.
  split; [exact ex_file_wf|].
  destruct (returned_pairs_come_from_file 53 1024 std64 nat lcg _ _ ex_file 7 ex_file_wf)
    as (out & st' & Hcell & Ht & _).
  exists out, st'. exact (conj Hcell Ht).
Defined.

(** Witness of X6 *)
Lemma returned_arrays_fit_the_network_witness :
  wf_input ex_stats ex_file_varied ∧
  ∃ out st',
    cell 53 1024 std64 lcg ex_stats ex_file_varied 7 = (Ok out, st') ∧
    Forall (λ sp, length sp = 2) (train_spectra out ++ cv_spectra out) ∧
    Forall (λ l, length l = 3) (train_labels out ++ cv_labels out).
Proof.
  split; [exact ex_file_varied_wf|].
  destruct (returned_arrays_fit_the_network 53 1024 std64 nat lcg _ _
              ex_file_varied 7 ex_file_varied_wf)
    as (out & st' & Hcell & Hs & Hl & _).
  exists out, st'. split; [exact Hcell|]. split; [|exact Hl].
  eapply Forall_impl; [exact Hs|]. intros sp [Hsp _]. exact Hsp.
Defined.

(** Witness of X8: three means and three deviations, and two means *)
Lemma normalize_broadcasts_three_or_one_witness :
  (∃ out, normalize 53 1024 [b64 4000 0; b64 2 0; b64 0 0]
            [b64 500 0; b64 1 0; b64 1 (-1)] ex_labels = Ok out
          ∧ length out = 5)
  ∧ normalize 53 1024 [b64 4000 0; b64 2 0]
      [b64 500 0; b64 1 0; b64 1 (-1)] ex_labels = Raise ValueError.
Proof.
  assert (ex_labels ≠ []) as Hne by (intros H; discriminate H).
  assert (Forall (λ row : vector, length row = 3) ex_labels) as Hrows by by_rows.
  split.
  - destruct (proj1 (normalize_broadcasts_three_or_one 53 1024
                       [b64 4000 0; b64 2 0; b64 0 0]
                       [b64 500 0; b64 1 0; b64 1 (-1)] ex_labels Hne Hrows)
                (conj (or_introl eq_refl) (or_introl eq_refl)))
      as (out & Hout & Hlen & _).
    exists out. exact (conj Hout Hlen).
  - apply (proj2 (normalize_broadcasts_three_or_one 53 1024
                    [b64 4000 0; b64 2 0]
                    [b64 500 0; b64 1 0; b64 1 (-1)] ex_labels Hne Hrows)).
    simpl. lia.
Defined.

(** Witness of X9: the 89554 rows of the notebook's file give the 80598
    training spectra that the cell prints *)
Lemma num_train_in_range_witness :
  num_train_of (Z.to_nat 89554) = Ok 80598%Z
  ∧ ∃ num_train, num_train_of (Z.to_nat 89554) = Ok num_train
                 ∧ (0 ≤ num_train ≤ Z.of_nat (Z.to_nat 89554))%Z.
Proof.
  split; [vm_compute; reflexivity|].
  apply (num_train_in_range (Z.to_nat 89554)). vm_compute. reflexivity.
Defined.

(** Witness of X10: with the hyper parameters of the notebook the counts
    are those that [model.summary()] prints *)
Lemma build_model_summary_witness :
  ∃ m, built (build_model 7514 3 8 3 4 [256; 128]%N false (Input [7514; 1]%N)) = Ok m
       ∧ output_shape m = [3]%N
       ∧ trainable_params m = 3881094%N
       ∧ non_trainable_params m = 768%N
       ∧ total_params m = 3881862%N.
Proof.
  eexists. split.
  - apply (build_model_summary 7514 3 8 3 4 [256; 128]%N false 1 256 128).
    + lia.
    + by_rows.
    + reflexivity.
    + reflexivity.
  - vm_compute. repeat split.
Defined.

(** Witness of X11: a spectrum one flux short *)
Lemma build_model_rejects_other_shapes_witness :
  built (build_model 7514 3 8 3 4 [256; 128]%N true (Input [7513; 1]%N)) = Raise ValueError.
Proof.
  apply (build_model_rejects_other_shapes 7514 3 8 3 4 [256; 128]%N true [7513; 1]%N).
  - simpl. lia.
  - intros channels H. discriminate H.
Defined.

(** Witness of X13 *)
Lemma repeated_spec_repeats_each_flux_witness :
  repeated_spec 3 2 [[b64 5 0]; [b64 6 0]; [b64 7 0]]
  = Ok [[b64 5 0; b64 5 0]; [b64 6 0; b64 6 0]; [b64 7 0; b64 7 0]].
Proof.
  apply (repeated_spec_repeats_each_flux 3 2 [b64 5 0; b64 6 0; b64 7 0]). lia.
Defined.
